(** * Column-store search (src/btree/col_srch.c)

    A shallow embedding of [__check_leaf_key_range] and [__wt_col_search]:
    the pinned-leaf range check, the descent through column-store internal
    pages (right-edge fast path and binary search), and the resolution of a
    record number on a fixed- or variable-length leaf page, including the
    update and append insert lists.

    Memory is explicit: a [world] holds the structures the file dereferences
    itself ([WT_REF], [WT_PAGE], [WT_PAGE_INDEX], the btree handle), indexed
    by address.  Functions and macros the file calls but does not define are
    the fields of the class [Collaborators]; every theorem of the general
    part holds for all of them.  Other threads are seen only through those
    calls: a call may hand back a different world. *)

From Stdlib Require Import ZArith List Bool Lia.
Import ListNotations.
Local Open Scope Z_scope.

(** ** Machine integers and pointers *)

Definition UINT32_MAX : Z := 2 ^ 32 - 1.
Definition UINT64_MAX : Z := 2 ^ 64 - 1.

(** Arithmetic on [uint32_t] and [uint64_t] wraps. *)
Definition wrap32 (z : Z) : Z := z mod 2 ^ 32.
Definition wrap64 (z : Z) : Z := z mod 2 ^ 64.

(** A pointer is an address; [NULL] is address 0. *)
Definition ptr : Type := Z.
Definition NULL : ptr := 0.

(** ** Structures *)

(** [WT_REF]: [page], [home], [pindex_hint] and [key.recno]. *)
Record WT_REF : Type := mkRef {
  ref_page : ptr;
  ref_home : ptr;
  ref_pindex_hint : Z;
  ref_key_recno : Z
}.

(** [WT_PAGE_INDEX]: the [entries] count and the [index] array of
    [WT_REF *].  A read outside the array yields [NULL]. *)
Record WT_PAGE_INDEX : Type := mkPindex {
  pindex_entries : Z;
  pindex_index : list ptr
}.

Definition index_at (pindex : WT_PAGE_INDEX) (i : Z) : ptr :=
  nth (Z.to_nat i) (pindex_index pindex) NULL.

Inductive page_type : Type :=
| WT_PAGE_COL_FIX
| WT_PAGE_COL_INT
| WT_PAGE_COL_VAR.

Definition page_type_eqb (a b : page_type) : bool :=
  match a, b with
  | WT_PAGE_COL_FIX, WT_PAGE_COL_FIX => true
  | WT_PAGE_COL_INT, WT_PAGE_COL_INT => true
  | WT_PAGE_COL_VAR, WT_PAGE_COL_VAR => true
  | _, _ => false
  end.

(** [WT_PAGE]: the type tag and the members of the page union the search
    reads ([pg_intl_index] is the address of the current index snapshot). *)
Record WT_PAGE : Type := mkPage {
  pg_type : page_type;
  pg_intl_recno : Z;
  pg_intl_index : ptr;
  pg_fix_recno : Z;
  pg_fix_entries : Z;
  pg_var_recno : Z
}.

(** [WT_CURSOR_BTREE]: the fields the search reads or writes. *)
Record WT_CURSOR_BTREE : Type := mkCbt {
  cbt_ref : ptr;
  cbt_recno : Z;
  cbt_slot : Z;
  cbt_compare : Z;
  cbt_ins_head : ptr;
  cbt_ins : ptr;
  cbt_ins_stack : list ptr;
  cbt_next_stack : list ptr;
  cbt_flags : Z
}.

Definition set_ref (c : WT_CURSOR_BTREE) (v : ptr) : WT_CURSOR_BTREE :=
  mkCbt v (cbt_recno c) (cbt_slot c) (cbt_compare c) (cbt_ins_head c)
        (cbt_ins c) (cbt_ins_stack c) (cbt_next_stack c) (cbt_flags c).
Definition set_recno (c : WT_CURSOR_BTREE) (v : Z) : WT_CURSOR_BTREE :=
  mkCbt (cbt_ref c) v (cbt_slot c) (cbt_compare c) (cbt_ins_head c)
        (cbt_ins c) (cbt_ins_stack c) (cbt_next_stack c) (cbt_flags c).
Definition set_slot (c : WT_CURSOR_BTREE) (v : Z) : WT_CURSOR_BTREE :=
  mkCbt (cbt_ref c) (cbt_recno c) v (cbt_compare c) (cbt_ins_head c)
        (cbt_ins c) (cbt_ins_stack c) (cbt_next_stack c) (cbt_flags c).
Definition set_compare (c : WT_CURSOR_BTREE) (v : Z) : WT_CURSOR_BTREE :=
  mkCbt (cbt_ref c) (cbt_recno c) (cbt_slot c) v (cbt_ins_head c)
        (cbt_ins c) (cbt_ins_stack c) (cbt_next_stack c) (cbt_flags c).
Definition set_ins_head (c : WT_CURSOR_BTREE) (v : ptr) : WT_CURSOR_BTREE :=
  mkCbt (cbt_ref c) (cbt_recno c) (cbt_slot c) (cbt_compare c) v
        (cbt_ins c) (cbt_ins_stack c) (cbt_next_stack c) (cbt_flags c).
Definition set_ins (c : WT_CURSOR_BTREE) (v : ptr) : WT_CURSOR_BTREE :=
  mkCbt (cbt_ref c) (cbt_recno c) (cbt_slot c) (cbt_compare c)
        (cbt_ins_head c) v (cbt_ins_stack c) (cbt_next_stack c) (cbt_flags c).
Definition set_stacks (c : WT_CURSOR_BTREE) (s n : list ptr)
  : WT_CURSOR_BTREE :=
  mkCbt (cbt_ref c) (cbt_recno c) (cbt_slot c) (cbt_compare c)
        (cbt_ins_head c) (cbt_ins c) s n (cbt_flags c).

(** [F_SET(cbt, mask)]: [cbt->flags |= mask]. *)
Definition F_SET (c : WT_CURSOR_BTREE) (mask : Z) : WT_CURSOR_BTREE :=
  mkCbt (cbt_ref c) (cbt_recno c) (cbt_slot c) (cbt_compare c)
        (cbt_ins_head c) (cbt_ins c) (cbt_ins_stack c) (cbt_next_stack c)
        (Z.lor (cbt_flags c) mask).

(** ** The world *)

(** The structures reachable from the session, by address, and the two
    members of the btree handle the search uses: [bt_root] is [&btree->root]
    and [bt_maximum_depth] is [btree->maximum_depth]. *)
Record world : Type := mkWorld {
  w_ref : ptr -> WT_REF;
  w_page : ptr -> WT_PAGE;
  w_pindex : ptr -> WT_PAGE_INDEX;
  bt_root : ptr;
  bt_maximum_depth : Z
}.

Definition set_maximum_depth (w : world) (d : Z) : world :=
  mkWorld (w_ref w) (w_page w) (w_pindex w) (bt_root w) d.

(** [r->key.recno] for a [WT_REF *r]. *)
Definition key_recno (w : world) (r : ptr) : Z := ref_key_recno (w_ref w r).

(** Modelled from the spec: the macro [WT_INTL_INDEX_GET] is not in
    col_srch.c; "[INDEX_GET(page)]: acquire-load the current [PageIndex]
    snapshot".  It yields the address stored in the page. *)
Definition WT_INTL_INDEX_GET (w : world) (page : ptr) : ptr :=
  pg_intl_index (w_page w page).

(** ** Outcomes *)

(** A computation finishes with a value, stops at a failed [WT_ASSERT], or
    runs out of the fuel that bounds the model's loops. *)
Inductive result (A : Type) : Type :=
| Done (a : A)
| AssertFailed
| OutOfFuel.
Arguments Done {A} a.
Arguments AssertFailed {A}.
Arguments OutOfFuel {A}.

Definition bind {A B : Type} (m : result A) (k : A -> result B) : result B :=
  match m with
  | Done a => k a
  | AssertFailed => AssertFailed
  | OutOfFuel => OutOfFuel
  end.

Notation "x <- m ;; k" := (bind m (fun x => k))
  (at level 61, m at next level, right associativity).
Notation "' p <- m ;; k" := (bind m (fun p => k))
  (at level 61, p pattern, m at next level, right associativity).

(** [WT_ASSERT(session, e)]. *)
Definition WT_ASSERT (e : bool) : result unit :=
  if e then Done tt else AssertFailed.

(** ** __check_leaf_key_range (lines 15-56) *)

Definition __check_leaf_key_range (w : world) (recno : Z) (leaf : ptr)
    (cbt : WT_CURSOR_BTREE) : Z * WT_CURSOR_BTREE :=
  if recno <? key_recno w leaf then
    (0, set_compare cbt 1)
  else
    let pindex := w_pindex w (WT_INTL_INDEX_GET w (ref_home (w_ref w leaf))) in
    let indx := ref_pindex_hint (w_ref w leaf) in
    if (wrap32 (indx + 1) <? pindex_entries pindex)
       && (index_at pindex indx =? leaf)
       && (recno >=? key_recno w (index_at pindex (wrap32 (indx + 1)))) then
      (0, set_compare cbt (-1))
    else
      (0, set_compare cbt 0).

(** ** Selection of the child on an internal page (lines 119-166) *)

(** The binary search loop of lines 139-150 from a state [(base, limit,
    descent)]; it yields [(base, descent)] at loop exit.  [limit] is a
    [uint32_t] halved by every iteration, hence the caller's fuel of 32. *)
Fixpoint intl_bsearch (fuel : nat) (w : world) (pindex : WT_PAGE_INDEX)
    (recno base limit : Z) (descent : ptr) : result (Z * ptr) :=
  if limit =? 0 then Done (base, descent)
  else
    match fuel with
    | O => OutOfFuel
    | S fuel' =>
      let indx := wrap32 (base + Z.shiftr limit 1) in
      let descent := index_at pindex indx in
      if recno =? key_recno w descent then Done (base, descent)
      else if recno <? key_recno w descent then
        intl_bsearch fuel' w pindex recno base (Z.shiftr limit 1) descent
      else
        intl_bsearch fuel' w pindex recno (wrap32 (indx + 1))
                     (Z.shiftr (wrap32 (limit - 1)) 1) descent
    end.

(** Lines 120-150: the right-edge test, then the binary search over the
    first [entries - 1] slots.  Yields whether the right edge was taken,
    [base] and [descent] as they stand at the label [descend]. *)
Definition intl_pick (w : world) (pindex : WT_PAGE_INDEX) (recno : Z)
  : result (bool * Z * ptr) :=
  let base := pindex_entries pindex in
  let descent := index_at pindex (wrap32 (base - 1)) in
  if recno >=? key_recno w descent then Done (true, base, descent)
  else
    '(base, descent) <-
      intl_bsearch 32 w pindex recno 0 (wrap32 (pindex_entries pindex - 1))
                   descent ;;
    Done (false, base, descent).

(** Lines 158-166 at the label [descend]. *)
Definition intl_descend_slot (w : world) (pindex : WT_PAGE_INDEX)
    (recno base : Z) (descent : ptr) : result ptr :=
  if negb (recno =? key_recno w descent) then
    _ <- WT_ASSERT (base >? 0) ;;
    Done (index_at pindex (wrap32 (base - 1)))
  else Done descent.

(** One selection step: the child a search for [recno] descends into. *)
Definition intl_select (w : world) (pindex : WT_PAGE_INDEX) (recno : Z)
  : result ptr :=
  '(_, base, descent) <- intl_pick w pindex recno ;;
  intl_descend_slot w pindex recno base descent.

(** ** Collaborators *)

(** What col_srch.c uses without defining it: two constants, the cursor
    clear, the page cache calls, the slot lookup of variable-length pages,
    the insert-list probe and the macros that pick an insert list.  The
    probe is handed the cursor's two search stacks and yields them as it
    leaves them. *)
Class Collaborators : Type := {
  WT_RESTART : Z;
  WT_CBT_MAX_RECORD : Z;
  __cursor_pos_clear : WT_CURSOR_BTREE -> WT_CURSOR_BTREE;
  __wt_page_swap : world -> ptr -> ptr -> Z * world;
  __wt_page_release : world -> ptr -> Z * world;
  __wt_split_intl_race : world -> ptr -> ptr -> bool;
  __col_var_search : world -> ptr -> Z -> ptr;
  __col_var_last_recno : world -> ptr -> Z;
  __col_insert_search :
    world -> ptr -> list ptr -> list ptr -> Z -> ptr * list ptr * list ptr;
  WT_COL_SLOT : world -> ptr -> ptr -> Z;
  WT_COL_UPDATE_SINGLE : world -> ptr -> ptr;
  WT_COL_UPDATE_SLOT : world -> ptr -> Z -> ptr;
  WT_COL_APPEND : world -> ptr -> ptr;
  WT_INSERT_RECNO : world -> ptr -> Z
}.

(** Where the part of [__wt_col_search] before the label [leaf_only] ends:
    with a [return], or at the label with the leaf to search. *)
Inductive located : Type :=
| Returned (ret : Z) (cbt : WT_CURSOR_BTREE) (w : world)
| LeafOnly (current : ptr) (cbt : WT_CURSOR_BTREE) (w : world).

(** How the walk down the internal pages ends. *)
Inductive walked : Type :=
| WalkLeaf (current : ptr) (depth : Z) (w : world)
| WalkError (ret : Z) (w : world).

Section ColSearch.

Context {env : Collaborators}.

(** ** The walk down the tree (lines 108-181) *)

(** One unit of fuel per visit of the label [restart_page]: [continue]
    re-enters it one level down with the page's index as the parent's,
    [goto restart_page] with the same page, parent index and depth, and
    [goto restart_root] with the root, no parent index and depth 2. *)
Fixpoint col_search_walk (fuel : nat) (w : world) (recno : Z)
    (current parent_pindex : ptr) (depth : Z) : result walked :=
  match fuel with
  | O => OutOfFuel
  | S fuel' =>
    let page := ref_page (w_ref w current) in
    if negb (page_type_eqb (pg_type (w_page w page)) WT_PAGE_COL_INT) then
      Done (WalkLeaf current depth w)
    else
      _ <- WT_ASSERT (key_recno w current =? pg_intl_recno (w_page w page)) ;;
      let pindex := WT_INTL_INDEX_GET w page in
      let swap (descent : ptr) : result walked :=
        let '(ret, w') := __wt_page_swap w current descent in
        if ret =? 0 then
          col_search_walk fuel' w' recno descent pindex (depth + 1)
        else if ret =? WT_RESTART then
          col_search_walk fuel' w' recno current parent_pindex depth
        else Done (WalkError ret w') in
      '(edge, base, descent) <- intl_pick w (w_pindex w pindex) recno ;;
      if edge && negb (parent_pindex =? NULL)
              && __wt_split_intl_race w (ref_home (w_ref w current))
                                      parent_pindex then
        let '(ret, w') := __wt_page_release w current in
        if negb (ret =? 0) then Done (WalkError ret w')
        else col_search_walk fuel' w' recno (bt_root w') NULL 2
      else
        descent <- intl_descend_slot w (w_pindex w pindex) recno base descent ;;
        swap descent
  end.

(** ** The leaf page (lines 187-292) *)

(** Lines 245-251: the update list of a slot that is on the page. *)
Definition col_search_on_page (w : world) (recno : Z) (ins_head : ptr)
    (cbt : WT_CURSOR_BTREE) : Z * WT_CURSOR_BTREE :=
  let '(ins, ins_stack, next_stack) :=
    __col_insert_search w ins_head (cbt_ins_stack cbt) (cbt_next_stack cbt)
                        recno in
  let cbt := set_stacks cbt ins_stack next_stack in
  if negb (ins =? NULL) && (recno =? WT_INSERT_RECNO w ins) then
    (0, set_ins (set_ins_head cbt ins_head) ins)
  else (0, cbt).

(** Lines 253-292, the label [past_end]. *)
Definition col_search_past_end (w : world) (page : ptr) (recno : Z)
    (cbt : WT_CURSOR_BTREE) : Z * WT_CURSOR_BTREE :=
  let cbt := set_ins_head cbt (WT_COL_APPEND w page) in
  let cbt :=
    if recno =? UINT64_MAX then set_ins cbt NULL
    else
      let '(ins, ins_stack, next_stack) :=
        __col_insert_search w (cbt_ins_head cbt) (cbt_ins_stack cbt)
                            (cbt_next_stack cbt) recno in
      set_ins (set_stacks cbt ins_stack next_stack) ins in
  let cbt :=
    if cbt_ins cbt =? NULL then set_compare cbt (-1)
    else
      let cbt := set_recno cbt (WT_INSERT_RECNO w (cbt_ins cbt)) in
      if recno =? cbt_recno cbt then set_compare cbt 0
      else if recno <? cbt_recno cbt then set_compare cbt 1
      else set_compare cbt (-1) in
  if cbt_compare cbt =? -1 then (0, F_SET cbt WT_CBT_MAX_RECORD)
  else (0, cbt).

(** Lines 187-235, the label [leaf_only], and the two continuations. *)
Definition col_search_leaf (w : world) (recno : Z) (current : ptr)
    (cbt : WT_CURSOR_BTREE) : Z * WT_CURSOR_BTREE :=
  let page := ref_page (w_ref w current) in
  let cbt := set_ref cbt current in
  let cbt := set_recno cbt recno in
  let cbt := set_compare cbt 0 in
  let cbt := set_slot cbt UINT32_MAX in
  if page_type_eqb (pg_type (w_page w page)) WT_PAGE_COL_FIX then
    if recno <? pg_fix_recno (w_page w page) then (0, set_compare cbt 1)
    else if recno >=? wrap64 (pg_fix_recno (w_page w page)
                              + pg_fix_entries (w_page w page)) then
      col_search_past_end w page recno
        (set_recno cbt (wrap64 (pg_fix_recno (w_page w page)
                                + pg_fix_entries (w_page w page))))
    else col_search_on_page w recno (WT_COL_UPDATE_SINGLE w page) cbt
  else
    if recno <? pg_var_recno (w_page w page) then (0, set_compare cbt 1)
    else
      let cip := __col_var_search w page recno in
      if cip =? NULL then
        col_search_past_end w page recno
          (set_recno cbt (__col_var_last_recno w page))
      else
        let cbt := set_slot cbt (WT_COL_SLOT w page cip) in
        col_search_on_page w recno (WT_COL_UPDATE_SLOT w page (cbt_slot cbt))
                           cbt.

(** ** __wt_col_search (lines 62-293) *)

(** Lines 77-185: up to the label [leaf_only]. *)
Definition col_search_locate (fuel : nat) (w : world) (recno : Z)
    (leaf : ptr) (cbt : WT_CURSOR_BTREE) : result located :=
  let cbt := __cursor_pos_clear cbt in
  if negb (leaf =? NULL) then
    if negb (ref_home (w_ref w leaf) =? NULL) then
      let '(ret, cbt) := __check_leaf_key_range w recno leaf cbt in
      if negb (ret =? 0) then Done (Returned ret cbt w)
      else if negb (cbt_compare cbt =? 0) then
        Done (Returned 0 (set_slot cbt 0) w)
      else Done (LeafOnly leaf cbt w)
    else Done (LeafOnly leaf cbt w)
  else
    r <- col_search_walk fuel w recno (bt_root w) NULL 2 ;;
    match r with
    | WalkError ret w' => Done (Returned ret cbt w')
    | WalkLeaf current depth w' =>
      let w' := if depth >? bt_maximum_depth w'
                then set_maximum_depth w' depth else w' in
      Done (LeafOnly current cbt w')
    end.

Definition __wt_col_search (fuel : nat) (w : world) (recno : Z) (leaf : ptr)
    (cbt : WT_CURSOR_BTREE) : result (Z * WT_CURSOR_BTREE * world) :=
  l <- col_search_locate fuel w recno leaf cbt ;;
  match l with
  | Returned ret cbt w' => Done (ret, cbt, w')
  | LeafOnly current cbt w' =>
    let '(ret, cbt) := col_search_leaf w' recno current cbt in
    Done (ret, cbt, w')
  end.

End ColSearch.

(** * Vocabulary of the statements *)

(** ** Selection *)

(** Slot [i] of the index covers [recno]: its key is at most [recno] and it
    is the last slot or the next key is beyond [recno]. *)
Definition covers (w : world) (pindex : WT_PAGE_INDEX) (recno i : Z) : Prop :=
  0 <= i < pindex_entries pindex
  /\ key_recno w (index_at pindex i) <= recno
  /\ (i = pindex_entries pindex - 1
      \/ recno < key_recno w (index_at pindex (i + 1))).

(** The children's keys increase strictly along the index. *)
Definition keys_increasing (w : world) (pindex : WT_PAGE_INDEX) : Prop :=
  forall i j, 0 <= i < j -> j < pindex_entries pindex ->
    key_recno w (index_at pindex i) < key_recno w (index_at pindex j).

(** ** Paths through the leaf page *)

Section Paths.

Context {env : Collaborators}.

(** The record is before the first record of the page (lines 214, 224). *)
Definition leaf_before (w : world) (page : ptr) (recno : Z) : bool :=
  if page_type_eqb (pg_type (w_page w page)) WT_PAGE_COL_FIX
  then recno <? pg_fix_recno (w_page w page)
  else recno <? pg_var_recno (w_page w page).

(** The record is past the last record of the page: the search goes to the
    label [past_end] (lines 218, 228). *)
Definition leaf_past_end (w : world) (page : ptr) (recno : Z) : bool :=
  if page_type_eqb (pg_type (w_page w page)) WT_PAGE_COL_FIX
  then negb (recno <? pg_fix_recno (w_page w page))
       && (recno >=? wrap64 (pg_fix_recno (w_page w page)
                             + pg_fix_entries (w_page w page)))
  else negb (recno <? pg_var_recno (w_page w page))
       && (__col_var_search w page recno =? NULL).

(** The record is on the page: the search reaches line 245. *)
Definition leaf_on_page (w : world) (page : ptr) (recno : Z) : bool :=
  negb (leaf_before w page recno) && negb (leaf_past_end w page recno).

(** The update list probed for a record that is on the page (lines 222,
    233). *)
Definition on_page_head (w : world) (page : ptr) (recno : Z) : ptr :=
  if page_type_eqb (pg_type (w_page w page)) WT_PAGE_COL_FIX
  then WT_COL_UPDATE_SINGLE w page
  else WT_COL_UPDATE_SLOT w page
         (WT_COL_SLOT w page (__col_var_search w page recno)).

(** The slot of the cursor for a record that is on the page: only the
    variable-length path stores one (line 232). *)
Definition on_page_slot (w : world) (page : ptr) (recno : Z) : Z :=
  if page_type_eqb (pg_type (w_page w page)) WT_PAGE_COL_FIX
  then UINT32_MAX
  else WT_COL_SLOT w page (__col_var_search w page recno).

(** The record number stored before the jump to [past_end] (lines 219,
    229). *)
Definition page_end_recno (w : world) (page : ptr) : Z :=
  if page_type_eqb (pg_type (w_page w page)) WT_PAGE_COL_FIX
  then wrap64 (pg_fix_recno (w_page w page) + pg_fix_entries (w_page w page))
  else __col_var_last_recno w page.

(** What the probe of a list hands back: the entry, and the two stacks. *)
Definition probe_ins (w : world) (head : ptr) (c : WT_CURSOR_BTREE)
    (recno : Z) : ptr :=
  fst (fst (__col_insert_search w head (cbt_ins_stack c) (cbt_next_stack c)
                                recno)).

(** Every bit of [WT_CBT_MAX_RECORD] is set in the cursor's flags. *)
Definition max_record_set (c : WT_CURSOR_BTREE) : Prop :=
  Z.land (cbt_flags c) WT_CBT_MAX_RECORD = WT_CBT_MAX_RECORD.

(** The cursor as lines 189-198 leave it at the label [leaf_only]. *)
Definition leaf_cursor (c : WT_CURSOR_BTREE) (current : ptr) (recno : Z)
  : WT_CURSOR_BTREE :=
  set_slot (set_compare (set_recno (set_ref c current) recno) 0) UINT32_MAX.

(** The cursor clear leaves both insert pointers of [c] null. *)
Definition clear_unsets_ins (c : WT_CURSOR_BTREE) : Prop :=
  cbt_ins_head (__cursor_pos_clear c) = NULL
  /\ cbt_ins (__cursor_pos_clear c) = NULL.

End Paths.

(** ** Trees without a pending split *)

Section Trees.

Context {env : Collaborators}.

(** [settled w h r]: below the reference [r] the world [w] holds a tree of
    height [h] whose internal pages start at their reference's key, list
    between 1 and [UINT32_MAX] children in strictly increasing key order,
    the first at the page's own key, and for whose children the split test
    against the page's index finds no race. *)
Inductive settled (w : world) : nat -> ptr -> Prop :=
| settled_leaf (r : ptr) :
    pg_type (w_page w (ref_page (w_ref w r))) <> WT_PAGE_COL_INT ->
    settled w 0 r
| settled_intl (h : nat) (r : ptr) :
    pg_type (w_page w (ref_page (w_ref w r))) = WT_PAGE_COL_INT ->
    key_recno w r = pg_intl_recno (w_page w (ref_page (w_ref w r))) ->
    1 <= pindex_entries
           (w_pindex w (WT_INTL_INDEX_GET w (ref_page (w_ref w r))))
      <= UINT32_MAX ->
    keys_increasing w
      (w_pindex w (WT_INTL_INDEX_GET w (ref_page (w_ref w r)))) ->
    key_recno w
      (index_at (w_pindex w (WT_INTL_INDEX_GET w (ref_page (w_ref w r)))) 0)
    = key_recno w r ->
    (forall i,
        0 <= i < pindex_entries
                   (w_pindex w (WT_INTL_INDEX_GET w (ref_page (w_ref w r)))) ->
        settled w h
          (index_at (w_pindex w (WT_INTL_INDEX_GET w (ref_page (w_ref w r))))
                    i)) ->
    (forall i,
        0 <= i < pindex_entries
                   (w_pindex w (WT_INTL_INDEX_GET w (ref_page (w_ref w r)))) ->
        __wt_split_intl_race w
          (ref_home
             (w_ref w
                (index_at
                   (w_pindex w (WT_INTL_INDEX_GET w (ref_page (w_ref w r))))
                   i)))
          (WT_INTL_INDEX_GET w (ref_page (w_ref w r))) = false) ->
    settled w (S h) r.

(** [descends w recno r c]: from [r], stepping at every internal page into
    the child whose slot covers [recno] ends at the reference [c] of a page
    that is not internal. *)
Inductive descends (w : world) (recno : Z) : ptr -> ptr -> Prop :=
| descends_leaf (r : ptr) :
    pg_type (w_page w (ref_page (w_ref w r))) <> WT_PAGE_COL_INT ->
    descends w recno r r
| descends_step (r : ptr) (i : Z) (c : ptr) :
    pg_type (w_page w (ref_page (w_ref w r))) = WT_PAGE_COL_INT ->
    covers w (w_pindex w (WT_INTL_INDEX_GET w (ref_page (w_ref w r))))
           recno i ->
    descends w recno
      (index_at (w_pindex w (WT_INTL_INDEX_GET w (ref_page (w_ref w r)))) i)
      c ->
    descends w recno r c.

End Trees.

(** * A reference instance of the collaborators *)

(** The memory behind the collaborators: the insert lists reached through
    [page->modify], the entries of each list in key order with their record
    numbers, and the slot array of a variable-length page with the number of
    records each slot stands for. *)
Record chains : Type := mkChains {
  ch_update : ptr -> Z -> ptr;
  ch_append : ptr -> ptr;
  ch_entries : ptr -> list ptr;
  ch_recno : ptr -> Z;
  ch_var_d : ptr -> ptr;
  ch_var_repeats : ptr -> list Z
}.

(** Modelled from the spec: [__col_insert_search] is not in col_srch.c;
    "Skiplist probe; returns an entry with the greatest recno <= search
    recno, populating search stacks for potential insertion".  The walk
    keeps the last entry at or below [recno] and the first one above it. *)
Fixpoint skip_search (recno_of : ptr -> Z) (recno : Z) (entries : list ptr)
    (best : ptr) : ptr * ptr :=
  match entries with
  | [] => (best, NULL)
  | e :: rest =>
    if recno_of e <=? recno then skip_search recno_of recno rest e
    else (best, e)
  end.

Definition reference_insert_search (ch : chains) (w : world) (head : ptr)
    (ins_stack next_stack : list ptr) (recno : Z)
  : ptr * list ptr * list ptr :=
  if head =? NULL then (NULL, ins_stack, next_stack)
  else
    let '(best, next) := skip_search (ch_recno ch) recno (ch_entries ch head)
                                     NULL in
    (best, [best], [next]).

(** Modelled from the spec: [__col_var_search] is not in col_srch.c;
    "Locate a variable-width slot covering recno, or null".  Slot [slot]
    starts at record [start]. *)
Fixpoint var_slot (repeats : list Z) (start recno slot : Z) : option Z :=
  match repeats with
  | [] => None
  | r :: rest =>
    if recno <? start + r then Some slot
    else var_slot rest (start + r) recno (slot + 1)
  end.

Definition reference_var_search (ch : chains) (w : world) (page : ptr)
    (recno : Z) : ptr :=
  match var_slot (ch_var_repeats ch page) (pg_var_recno (w_page w page))
                 recno 0 with
  | Some slot => ch_var_d ch page + slot
  | None => NULL
  end.

(** Modelled from the spec: [__col_var_last_recno] is not in col_srch.c;
    "Largest record number on a variable-width page". *)
Definition reference_var_last_recno (ch : chains) (w : world) (page : ptr)
  : Z :=
  pg_var_recno (w_page w page) + fold_right Z.add 0 (ch_var_repeats ch page)
  - 1.

(** Modelled from the spec: [__cursor_pos_clear] is not in col_srch.c;
    "Clear the cursor" (4.6, step 1).  Every field of the position is
    reset. *)
Definition reference_pos_clear (c : WT_CURSOR_BTREE) : WT_CURSOR_BTREE :=
  mkCbt NULL 0 0 0 NULL NULL [] [] 0.

(** Modelled from the spec: the page cache calls, the split test and the
    macros are not in col_srch.c.  The cache of the reference instance has
    every page resident and no other thread: [page_swap] and [page_release]
    succeed and leave the world alone; "[split_intl_race(home,
    parent_pindex)]: true iff [home]'s index differs from the snapshot";
    the macros read the insert lists of [chains].  The two constants have
    the values of the library's headers; the theorems depend on neither. *)
Definition reference (ch : chains) : Collaborators := {|
  WT_RESTART := -31805;
  WT_CBT_MAX_RECORD := 16;
  __cursor_pos_clear := reference_pos_clear;
  __wt_page_swap := fun w _ _ => (0, w);
  __wt_page_release := fun w _ => (0, w);
  __wt_split_intl_race := fun w home parent_pindex =>
    negb (WT_INTL_INDEX_GET w home =? parent_pindex);
  __col_var_search := reference_var_search ch;
  __col_var_last_recno := reference_var_last_recno ch;
  __col_insert_search := reference_insert_search ch;
  WT_COL_SLOT := fun w page cip => wrap32 (cip - ch_var_d ch page);
  WT_COL_UPDATE_SINGLE := fun w page => ch_update ch page 0;
  WT_COL_UPDATE_SLOT := fun w page slot => ch_update ch page slot;
  WT_COL_APPEND := fun w page => ch_append ch page;
  WT_INSERT_RECNO := fun w ins => ch_recno ch ins
|}.

(** ** A small tree

    The root reference (address 1) holds the internal page 100, whose index
    (address 200) lists the references 11, 12 and 13 with keys 1, 100 and
    150.  Their pages are 101 (fixed-length, records 1-99), 102
    (fixed-length, [pg_fix_recno = 100], [pg_fix_entries = 50]) and 103
    (variable-length from record 150).  Reference 14 names page 102 without
    a [home], as a page re-instantiated by a split does; reference 15 names
    it with a hint that went stale. *)
Definition tree_ref (r : ptr) : WT_REF :=
  if r =? 1 then mkRef 100 NULL 0 1
  else if r =? 11 then mkRef 101 100 0 1
  else if r =? 12 then mkRef 102 100 1 100
  else if r =? 13 then mkRef 103 100 2 150
  else if r =? 14 then mkRef 102 NULL 0 100
  else if r =? 15 then mkRef 102 100 0 100
  else mkRef NULL NULL 0 0.

Definition tree_page (p : ptr) : WT_PAGE :=
  if p =? 100 then mkPage WT_PAGE_COL_INT 1 200 0 0 0
  else if p =? 101 then mkPage WT_PAGE_COL_FIX 0 NULL 1 99 0
  else if p =? 102 then mkPage WT_PAGE_COL_FIX 0 NULL 100 50 0
  else mkPage WT_PAGE_COL_VAR 0 NULL 0 0 150.

Definition tree_index : WT_PAGE_INDEX := mkPindex 3 [11; 12; 13].

Definition tree : world :=
  mkWorld tree_ref tree_page (fun _ => tree_index) 1 0.

(** The insert lists of the tree: page 102 has the update list 300 with
    the entries [upd] and the append list 301 with the entries [app]; entry
    401 is record 170 and entry 402 is record 125.  Page 103 has three
    slots of 10, 5 and 20 records (150-184), the update list [310 + slot]
    (empty) for each and the append list 320 (empty). *)
Definition tree_chains (upd app : list ptr) : chains := {|
  ch_update := fun page slot =>
    if page =? 102 then 300 else if page =? 103 then 310 + slot else NULL;
  ch_append := fun page =>
    if page =? 102 then 301 else if page =? 103 then 320 else NULL;
  ch_entries := fun head =>
    if head =? 300 then upd else if head =? 301 then app else [];
  ch_recno := fun ins =>
    if ins =? 401 then 170 else if ins =? 402 then 125 else 0;
  ch_var_d := fun page => 500;
  ch_var_repeats := fun page => if page =? 103 then [10; 5; 20] else []
|}.

(** A cursor that was never positioned. *)
Definition fresh_cursor : WT_CURSOR_BTREE :=
  mkCbt NULL 0 0 0 NULL NULL [] [] 0.

(** The collaborators of the small tree, with [upd] on the update list and
    [app] on the append list of page 102. *)
Definition tree_env (upd app : list ptr) : Collaborators :=
  reference (tree_chains upd app).

(** The same collaborators over a page cache that cannot pin a child:
    [__wt_page_swap] fails with [EBUSY] (16) and leaves the world alone. *)
Definition busy_env : Collaborators := {|
  WT_RESTART := @WT_RESTART (tree_env [] []);
  WT_CBT_MAX_RECORD := @WT_CBT_MAX_RECORD (tree_env [] []);
  __cursor_pos_clear := @__cursor_pos_clear (tree_env [] []);
  __wt_page_swap := fun w _ _ => (16, w);
  __wt_page_release := @__wt_page_release (tree_env [] []);
  __wt_split_intl_race := @__wt_split_intl_race (tree_env [] []);
  __col_var_search := @__col_var_search (tree_env [] []);
  __col_var_last_recno := @__col_var_last_recno (tree_env [] []);
  __col_insert_search := @__col_insert_search (tree_env [] []);
  WT_COL_SLOT := @WT_COL_SLOT (tree_env [] []);
  WT_COL_UPDATE_SINGLE := @WT_COL_UPDATE_SINGLE (tree_env [] []);
  WT_COL_UPDATE_SLOT := @WT_COL_UPDATE_SLOT (tree_env [] []);
  WT_COL_APPEND := @WT_COL_APPEND (tree_env [] []);
  WT_INSERT_RECNO := @WT_INSERT_RECNO (tree_env [] [])
|}.

(** * Properties *)

(** ** Machine arithmetic *)

Lemma wrap32_small (z : Z) : 0 <= z <= UINT32_MAX -> wrap32 z = z.
Proof.
  unfold wrap32, UINT32_MAX. intros H. apply Z.mod_small. lia.
Qed.

Lemma shiftr_1 (z : Z) : Z.shiftr z 1 = z / 2.
Proof.
  rewrite Z.shiftr_div_pow2 by lia. reflexivity.
Qed.

Lemma pow2_succ (f : nat) : 2 ^ Z.of_nat (S f) = 2 * 2 ^ Z.of_nat f.
Proof.
  rewrite Nat2Z.inj_succ, Z.pow_succ_r by lia. reflexivity.
Qed.

(** ** Selection on an internal page *)

Section Selection.

Variables (w : world) (pindex : WT_PAGE_INDEX) (recno : Z).

Let n : Z := pindex_entries pindex.
Let k (i : Z) : Z := key_recno w (index_at pindex i).

Hypothesis entries_range : 1 <= n <= UINT32_MAX.
Hypothesis increasing : keys_increasing w pindex.

Lemma keys_monotone (i j : Z) : 0 <= i <= j -> j < n -> k i <= k j.
Proof.
  intros Hij Hj. destruct (Z.eq_dec i j) as [->|Hne]; [lia|].
  apply Z.lt_le_incl, increasing; unfold n in *; lia.
Qed.

Lemma covers_unique (i j : Z) :
  covers w pindex recno i -> covers w pindex recno j -> i = j.
Proof.
  unfold covers. fold n. fold (k i) (k j) (k (i + 1)) (k (j + 1)).
  intros (Hi & Hki & Hni) (Hj & Hkj & Hnj).
  destruct (Z.lt_trichotomy i j) as [Hlt | [Heq | Hgt]]; [|exact Heq|].
  - destruct Hni as [Hni | Hni]; [lia|].
    assert (k (i + 1) <= k j) by (apply keys_monotone; lia). lia.
  - destruct Hnj as [Hnj | Hnj]; [lia|].
    assert (k (j + 1) <= k i) by (apply keys_monotone; lia). lia.
Qed.

(** The loop from a state that brackets [recno]: every key below [base] is
    smaller than [recno], every key from [base + limit] on is larger.  It
    ends, on an equal key or with [base] at the first larger key. *)
Lemma intl_bsearch_spec (fuel : nat) :
  forall base limit d0,
    0 <= base -> 0 <= limit < 2 ^ Z.of_nat fuel -> base + limit <= n - 1 ->
    recno <> key_recno w d0 ->
    (forall i, 0 <= i < base -> k i < recno) ->
    (forall i, base + limit <= i < n -> recno < k i) ->
    exists base' d,
      intl_bsearch fuel w pindex recno base limit d0 = Done (base', d)
      /\ ((exists i, 0 <= i < n - 1 /\ d = index_at pindex i /\ recno = k i)
          \/ (recno <> key_recno w d
              /\ 0 <= base' <= n - 1
              /\ (forall i, 0 <= i < base' -> k i < recno)
              /\ (forall i, base' <= i < n -> recno < k i))).
Proof.
  induction fuel as [|f IH]; intros base limit d0 Hb Hl Hbl Hd0 Hlo Hhi.
  - assert (limit = 0) by (simpl in Hl; lia). subst limit. simpl.
    exists base, d0. split; [reflexivity|]. right.
    repeat split; try assumption; try lia.
    intros i Hi. apply Hhi. lia.
  - cbn [intl_bsearch]. destruct (limit =? 0) eqn:El.
    + apply Z.eqb_eq in El. subst limit.
      exists base, d0. split; [reflexivity|]. right.
      repeat split; try assumption; try lia.
      intros i Hi. apply Hhi. lia.
    + apply Z.eqb_neq in El. rewrite pow2_succ in Hl.
      rewrite !shiftr_1.
      assert (Hhalf : 0 <= limit / 2 < limit) by (Z.div_mod_to_equations; lia).
      rewrite (wrap32_small (base + limit / 2)) by lia.
      set (indx := base + limit / 2).
      fold (k indx).
      destruct (recno =? k indx) eqn:Eeq.
      * apply Z.eqb_eq in Eeq.
        exists base, (index_at pindex indx). split; [reflexivity|]. left.
        exists indx. subst indx. repeat split; try lia.
      * apply Z.eqb_neq in Eeq. destruct (recno <? k indx) eqn:Elt.
        -- apply Z.ltb_lt in Elt.
           apply IH; try assumption; try (subst indx; lia).
           ++ Z.div_mod_to_equations; lia.
           ++ intros i Hi. fold indx in Hi.
              assert (k indx <= k i) by (apply keys_monotone; subst indx; lia).
              lia.
        -- apply Z.ltb_ge in Elt.
           rewrite (wrap32_small (indx + 1)) by (subst indx; lia).
           rewrite (wrap32_small (limit - 1)) by lia.
           assert (Hsum : indx + 1 + (limit - 1) / 2 = base + limit)
             by (subst indx; Z.div_mod_to_equations; lia).
           apply IH; try assumption; try (subst indx; lia).
           ++ Z.div_mod_to_equations; lia.
           ++ intros i Hi.
              assert (k i <= k indx) by (apply keys_monotone; subst indx; lia).
              lia.
           ++ intros i Hi. apply Hhi. lia.
Qed.

End Selection.

Lemma covers_greatest (w : world) (pindex : WT_PAGE_INDEX) (recno i j : Z) :
  keys_increasing w pindex ->
  covers w pindex recno i ->
  0 <= j < pindex_entries pindex ->
  key_recno w (index_at pindex j) <= recno ->
  key_recno w (index_at pindex j) <= key_recno w (index_at pindex i).
Proof.
  intros Hinc (Hi & Hki & Hnext) Hj Hkj.
  destruct (Z_le_gt_dec j i) as [Hle | Hgt].
  - destruct (Z.eq_dec j i) as [->|Hne]; [lia|].
    apply Z.lt_le_incl, Hinc; lia.
  - exfalso. destruct Hnext as [Hlast | Hnext]; [lia|].
    destruct (Z.eq_dec (i + 1) j) as [<-|Hne]; [lia|].
    assert (key_recno w (index_at pindex (i + 1))
            < key_recno w (index_at pindex j)) by (apply Hinc; lia).
    lia.
Qed.

(** C1.  On an internal page whose children's keys increase strictly and
    whose first key is at most [recno], one selection step (the right-edge
    fast path, or else the binary search over the first [entries - 1]
    slots followed by the step at [descend]) ends without a failed
    assertion on the child of the one slot that covers [recno].  The right
    edge is taken exactly when the last key is at most [recno].  When the
    loop left no equal key in [descent], [base > 0] holds and the child is
    [index[base - 1]], whose key is the greatest key at most [recno]. *)
Theorem intl_select_covering (w : world) (pindex : WT_PAGE_INDEX)
    (recno : Z) :
  1 <= pindex_entries pindex <= UINT32_MAX ->
  keys_increasing w pindex ->
  key_recno w (index_at pindex 0) <= recno ->
  exists edge base d0 i,
    intl_pick w pindex recno = Done (edge, base, d0)
    /\ intl_descend_slot w pindex recno base d0 = Done (index_at pindex i)
    /\ intl_select w pindex recno = Done (index_at pindex i)
    /\ covers w pindex recno i
    /\ (forall j, covers w pindex recno j -> j = i)
    /\ (edge = true <->
        key_recno w (index_at pindex (pindex_entries pindex - 1)) <= recno)
    /\ (recno <> key_recno w d0 ->
        0 < base /\ i = base - 1
        /\ forall j, 0 <= j < pindex_entries pindex ->
             key_recno w (index_at pindex j) <= recno ->
             key_recno w (index_at pindex j)
             <= key_recno w (index_at pindex i)).
Proof.
  intros Hn Hinc Hfirst.
  unfold intl_pick.
  rewrite (wrap32_small (pindex_entries pindex - 1)) by lia.
  set (n := pindex_entries pindex) in *.
  set (last := index_at pindex (n - 1)).
  destruct (recno >=? key_recno w last) eqn:Eedge.
  - (* the right edge *)
    apply Z.geb_le in Eedge.
    assert (Hcov : covers w pindex recno (n - 1)).
    { unfold covers. fold n. fold last. lia. }
    assert (Hdesc : intl_descend_slot w pindex recno n last
                    = Done (index_at pindex (n - 1))).
    { unfold intl_descend_slot. destruct (recno =? key_recno w last).
      - reflexivity.
      - cbn [negb]. replace (n >? 0) with true by (symmetry; apply Z.gtb_lt; lia).
        cbn. rewrite wrap32_small by lia. reflexivity. }
    exists true, n, last, (n - 1).
    split; [reflexivity|]. split; [exact Hdesc|].
    split.
    { unfold intl_select, intl_pick. fold n.
      rewrite (wrap32_small (n - 1)) by lia. fold last.
      replace (recno >=? key_recno w last) with true
        by (symmetry; apply Z.geb_le; lia).
      exact Hdesc. }
    split; [exact Hcov|].
    split; [intros j Hj; exact (covers_unique w pindex recno Hinc j (n - 1) Hj Hcov)|].
    split; [split; [intros _; exact Eedge | reflexivity]|].
    intros _. split; [lia|]. split; [lia|].
    intros j Hj Hkj. exact (covers_greatest w pindex recno (n - 1) j Hinc Hcov Hj Hkj).
  - (* the binary search *)
    assert (Elt : recno < key_recno w last).
    { destruct (Z.geb_spec recno (key_recno w last)); [discriminate|lia]. }
    destruct (intl_bsearch_spec w pindex recno Hn Hinc 32 0 (n - 1) last)
      as (base & d & Hrun & Hres).
    + lia.
    + change (2 ^ Z.of_nat 32) with 4294967296. unfold UINT32_MAX in Hn.
      fold n in Hn. lia.
    + fold n. lia.
    + lia.
    + intros i Hi. lia.
    + intros i Hi. fold n in Hi. replace i with (n - 1) by lia. exact Elt.
    + fold n in Hres. rewrite Hrun. cbn [bind].
      assert (Hfin : forall i,
        intl_descend_slot w pindex recno base d = Done (index_at pindex i) ->
        covers w pindex recno i ->
        (recno <> key_recno w d -> 0 < base /\ i = base - 1) ->
        exists edge base0 d0 i0,
          Done (false, base, d) = Done (edge, base0, d0)
          /\ intl_descend_slot w pindex recno base0 d0
             = Done (index_at pindex i0)
          /\ intl_select w pindex recno = Done (index_at pindex i0)
          /\ covers w pindex recno i0
          /\ (forall j, covers w pindex recno j -> j = i0)
          /\ (edge = true <-> key_recno w last <= recno)
          /\ (recno <> key_recno w d0 ->
              0 < base0 /\ i0 = base0 - 1
              /\ forall j, 0 <= j < n ->
                   key_recno w (index_at pindex j) <= recno ->
                   key_recno w (index_at pindex j)
                   <= key_recno w (index_at pindex i0))).
      { intros i Hdesc Hcov Hfall.
        exists false, base, d, i.
        split; [reflexivity|]. split; [exact Hdesc|].
        split.
        { unfold intl_select, intl_pick. fold n.
          rewrite (wrap32_small (n - 1)) by lia. fold last.
          rewrite Eedge.
          rewrite Hrun. exact Hdesc. }
        split; [exact Hcov|].
        split; [intros j Hj; exact (covers_unique w pindex recno Hinc j i Hj Hcov)|].
        split; [split; [discriminate | lia]|].
        intros Hne. destruct (Hfall Hne) as [Hb Hi].
        split; [exact Hb|]. split; [exact Hi|].
        intros j Hj Hkj.
        exact (covers_greatest w pindex recno i j Hinc Hcov Hj Hkj). }
      destruct Hres as [(i & Hi & -> & Heq) | (Hne & Hb & Hlo & Hhi)].
      * (* the loop broke on an equal key *)
        apply (Hfin i).
        -- unfold intl_descend_slot.
           replace (recno =? key_recno w (index_at pindex i)) with true
             by (symmetry; apply Z.eqb_eq; exact Heq).
           reflexivity.
        -- unfold covers. fold n. repeat split; try lia. right.
           rewrite Heq. apply Hinc; fold n; lia.
        -- intros Hne. contradiction.
      * (* the loop ran out of slots *)
        assert (Hpos : 0 < base).
        { destruct (Z.eq_dec base 0) as [->|]; [|lia].
          specialize (Hhi 0). lia. }
        apply (Hfin (base - 1)).
        -- unfold intl_descend_slot.
           replace (recno =? key_recno w d) with false
             by (symmetry; apply Z.eqb_neq; exact Hne).
           cbn [negb].
           replace (base >? 0) with true by (symmetry; apply Z.gtb_lt; lia).
           cbn. rewrite wrap32_small by lia. reflexivity.
        -- unfold covers. fold n. split; [lia|]. split.
           ++ apply Z.lt_le_incl, Hlo. lia.
           ++ right. replace (base - 1 + 1) with base by lia. apply Hhi. lia.
        -- intros _. split; [exact Hpos | reflexivity].
Qed.

(** Closed comparisons and equations on [Z], settled by evaluation. *)
Ltac by_eval :=
  repeat match goal with |- _ /\ _ => split end;
  first [ reflexivity
        | apply Z.leb_le; vm_compute; reflexivity
        | apply Z.ltb_lt; vm_compute; reflexivity
        | apply Z.eqb_neq; vm_compute; reflexivity ].

Lemma tree_keys_increasing : keys_increasing tree tree_index.
Proof.
  intros i j Hij Hj. cbn in Hj.
  assert (Hi : i = 0 \/ i = 1) by lia.
  assert (Hj' : j = 1 \/ j = 2) by lia.
  destruct Hi as [-> | ->], Hj' as [-> | ->]; try lia; reflexivity.
Qed.

(** The step on the index of the small tree, for record 125: the binary
    search runs out of slots with [base = 2] and picks slot 1, the child
    with key 100. *)
Lemma intl_select_covering_witness :
  intl_select tree tree_index 125 = Done 12
  /\ exists edge base d0 i,
    intl_pick tree tree_index 125 = Done (edge, base, d0)
    /\ intl_descend_slot tree tree_index 125 base d0
       = Done (index_at tree_index i)
    /\ intl_select tree tree_index 125 = Done (index_at tree_index i)
    /\ covers tree tree_index 125 i
    /\ (forall j, covers tree tree_index 125 j -> j = i)
    /\ (edge = true <->
        key_recno tree (index_at tree_index (pindex_entries tree_index - 1))
        <= 125)
    /\ (125 <> key_recno tree d0 ->
        0 < base /\ i = base - 1
        /\ forall j, 0 <= j < pindex_entries tree_index ->
             key_recno tree (index_at tree_index j) <= 125 ->
             key_recno tree (index_at tree_index j)
             <= key_recno tree (index_at tree_index i)).
Proof.
  split; [reflexivity|].
  apply (intl_select_covering tree tree_index 125).
  - by_eval.
  - exact tree_keys_increasing.
  - by_eval.
Defined.

(** ** The range check of a pinned leaf *)

(** C6.  With the hint [h = leaf->pindex_hint] below [UINT32_MAX] (it is a
    slot number, so [h + 1] does not wrap), the check always returns 0 and
    changes the cursor's [compare] only: to 1 when [recno <
    leaf->key.recno]; else to -1 when [h + 1 < entries], [index[h] == leaf]
    and [recno >= index[h + 1]->key.recno]; and to 0 in every other case,
    in particular whenever the hint is stale ([index[h] != leaf] or no slot
    [h + 1]). *)
Theorem check_leaf_key_range_cases (w : world) (recno : Z) (leaf : ptr)
    (cbt : WT_CURSOR_BTREE) :
  0 <= ref_pindex_hint (w_ref w leaf) < UINT32_MAX ->
  let h := ref_pindex_hint (w_ref w leaf) in
  let pindex := w_pindex w (WT_INTL_INDEX_GET w (ref_home (w_ref w leaf))) in
  let next_key := key_recno w (index_at pindex (h + 1)) in
  fst (__check_leaf_key_range w recno leaf cbt) = 0
  /\ (recno < key_recno w leaf ->
      __check_leaf_key_range w recno leaf cbt = (0, set_compare cbt 1))
  /\ (key_recno w leaf <= recno ->
      h + 1 < pindex_entries pindex -> index_at pindex h = leaf ->
      next_key <= recno ->
      __check_leaf_key_range w recno leaf cbt = (0, set_compare cbt (-1)))
  /\ (key_recno w leaf <= recno ->
      ~ (h + 1 < pindex_entries pindex /\ index_at pindex h = leaf
         /\ next_key <= recno) ->
      __check_leaf_key_range w recno leaf cbt = (0, set_compare cbt 0))
  /\ (key_recno w leaf <= recno ->
      pindex_entries pindex <= h + 1 \/ index_at pindex h <> leaf ->
      __check_leaf_key_range w recno leaf cbt = (0, set_compare cbt 0)).
Proof.
  intros Hh h pindex next_key. subst next_key.
  unfold __check_leaf_key_range. fold h. fold pindex.
  rewrite (wrap32_small (h + 1)) by (unfold UINT32_MAX in *; lia).
  destruct (Z.ltb_spec recno (key_recno w leaf)) as [Hlt | Hge].
  - repeat split; try reflexivity; intros; lia.
  - destruct (Z.ltb_spec (h + 1) (pindex_entries pindex)) as [Hslot | Hslot];
      destruct (Z.eqb_spec (index_at pindex h) leaf) as [Hsame | Hsame];
      destruct (Z.geb_spec recno (key_recno w (index_at pindex (h + 1))))
        as [Hnext | Hnext];
      cbn [andb fst]; repeat split; try reflexivity; intros;
      try lia; try contradiction; try tauto.
Qed.

(** Reference 12 of the small tree sits at slot 1, as its hint says, and
    record 155 belongs to the next child; reference 15 names the same page
    with the stale hint 0, and the check leaves its page to be searched. *)
Lemma check_leaf_key_range_cases_witness :
  __check_leaf_key_range tree 155 12 fresh_cursor
  = (0, set_compare fresh_cursor (-1))
  /\ __check_leaf_key_range tree 155 15 fresh_cursor
     = (0, set_compare fresh_cursor 0).
Proof.
  split.
  - apply (check_leaf_key_range_cases tree 155 12 fresh_cursor); by_eval.
  - apply (check_leaf_key_range_cases tree 155 15 fresh_cursor);
      [by_eval | by_eval | right; by_eval].
Defined.

(** ** The leaf page *)

Lemma land_lor_same (a m : Z) : Z.land (Z.lor a m) m = m.
Proof.
  apply Z.bits_inj'. intros i _. rewrite Z.land_spec, Z.lor_spec.
  destruct (Z.testbit a i), (Z.testbit m i); reflexivity.
Qed.

Section LeafProperties.

Context {env : Collaborators}.

Lemma check_leaf_key_range_shape (w : world) (recno : Z) (leaf : ptr)
    (c : WT_CURSOR_BTREE) :
  exists v, __check_leaf_key_range w recno leaf c = (0, set_compare c v)
            /\ (v = 0 <-> cbt_compare (snd (__check_leaf_key_range w recno leaf c)) = 0).
Proof.
  unfold __check_leaf_key_range.
  destruct (recno <? key_recno w leaf); [exists 1; cbn; split; [reflexivity|lia]|].
  match goal with |- context [if ?b then _ else _] => destruct b end;
    [exists (-1) | exists 0]; cbn; split; try reflexivity; lia.
Qed.

(** The label [leaf_only] overwrites [compare]. *)
Lemma col_search_leaf_ignores_compare (w : world) (recno : Z) (current : ptr)
    (c : WT_CURSOR_BTREE) (v : Z) :
  col_search_leaf w recno current (set_compare c v)
  = col_search_leaf w recno current c.
Proof. reflexivity. Qed.

(** A search that reaches [leaf_only] does so with the cleared cursor, up
    to [compare]; a supplied leaf is the leaf searched, in the caller's
    world. *)
Lemma locate_leaf_only (fuel : nat) (w : world) (recno : Z) (leaf : ptr)
    (cbt : WT_CURSOR_BTREE) (current : ptr) (cbt1 : WT_CURSOR_BTREE)
    (w1 : world) :
  col_search_locate fuel w recno leaf cbt = Done (LeafOnly current cbt1 w1) ->
  (exists v, cbt1 = set_compare (__cursor_pos_clear cbt) v)
  /\ (leaf <> NULL -> current = leaf /\ w1 = w).
Proof.
  unfold col_search_locate.
  destruct (Z.eqb_spec leaf NULL) as [Hnull | Hleaf]; cbn [negb].
  - intros H. split; [|intros Hc; contradiction].
    destruct (col_search_walk fuel w recno (bt_root w) NULL 2) as [[]| |];
      cbn in H; try discriminate.
    inversion H; subst.
    exists (cbt_compare (__cursor_pos_clear cbt)).
    destruct (__cursor_pos_clear cbt); reflexivity.
  - destruct (ref_home (w_ref w leaf) =? NULL); cbn [negb].
    + intros H. inversion H; subst. split; [|intros _; split; reflexivity].
      exists (cbt_compare (__cursor_pos_clear cbt)).
      destruct (__cursor_pos_clear cbt); reflexivity.
    + destruct (check_leaf_key_range_shape w recno leaf (__cursor_pos_clear cbt))
        as (v & -> & _).
      cbn. destruct (v =? 0); cbn; intros H; inversion H; subst.
      split; [exists v; reflexivity | intros _; split; reflexivity].
Qed.

(** From [leaf_only] on, the search is the leaf search on the cleared
    cursor, and it returns. *)
Lemma search_via_leaf (fuel : nat) (w : world) (recno : Z) (leaf : ptr)
    (cbt : WT_CURSOR_BTREE) (current : ptr) (cbt1 : WT_CURSOR_BTREE)
    (w1 : world) :
  col_search_locate fuel w recno leaf cbt = Done (LeafOnly current cbt1 w1) ->
  __wt_col_search fuel w recno leaf cbt
  = Done (fst (col_search_leaf w1 recno current (__cursor_pos_clear cbt)),
          snd (col_search_leaf w1 recno current (__cursor_pos_clear cbt)),
          w1).
Proof.
  intros H. unfold __wt_col_search. rewrite H. cbn [bind].
  destruct (locate_leaf_only _ _ _ _ _ _ _ _ H) as ((v & ->) & _).
  rewrite col_search_leaf_ignores_compare.
  destruct (col_search_leaf w1 recno current (__cursor_pos_clear cbt)).
  reflexivity.
Qed.

(** The three ways through the leaf page. *)
Lemma leaf_paths (w : world) (page : ptr) (recno : Z) :
  leaf_before w page recno = true
  \/ leaf_past_end w page recno = true
  \/ leaf_on_page w page recno = true.
Proof.
  unfold leaf_on_page.
  destruct (leaf_before w page recno); [left; reflexivity|].
  destruct (leaf_past_end w page recno); [right; left; reflexivity|].
  right; right; reflexivity.
Qed.

Lemma leaf_before_result (w : world) (recno : Z) (current : ptr)
    (c : WT_CURSOR_BTREE) :
  leaf_before w (ref_page (w_ref w current)) recno = true ->
  col_search_leaf w recno current c
  = (0, set_compare (leaf_cursor c current recno) 1).
Proof.
  unfold leaf_before, col_search_leaf, leaf_cursor.
  destruct (page_type_eqb _ _); intros ->; reflexivity.
Qed.

Lemma leaf_past_end_result (w : world) (recno : Z) (current : ptr)
    (c : WT_CURSOR_BTREE) :
  leaf_past_end w (ref_page (w_ref w current)) recno = true ->
  col_search_leaf w recno current c
  = col_search_past_end w (ref_page (w_ref w current)) recno
      (set_recno (leaf_cursor c current recno)
                 (page_end_recno w (ref_page (w_ref w current)))).
Proof.
  unfold leaf_past_end, col_search_leaf, leaf_cursor, page_end_recno.
  destruct (page_type_eqb _ _); intros H;
    apply andb_prop in H; destruct H as [Hb He];
    apply negb_true_iff in Hb; rewrite Hb, He; reflexivity.
Qed.

Lemma leaf_on_page_result (w : world) (recno : Z) (current : ptr)
    (c : WT_CURSOR_BTREE) :
  leaf_on_page w (ref_page (w_ref w current)) recno = true ->
  col_search_leaf w recno current c
  = col_search_on_page w recno
      (on_page_head w (ref_page (w_ref w current)) recno)
      (set_slot (leaf_cursor c current recno)
                (on_page_slot w (ref_page (w_ref w current)) recno)).
Proof.
  unfold leaf_on_page, leaf_before, leaf_past_end, col_search_leaf,
    leaf_cursor, on_page_head, on_page_slot.
  destruct (page_type_eqb _ _); intros H;
    apply andb_prop in H; destruct H as [Hb He];
    apply negb_true_iff in Hb; rewrite Hb in *; cbn [negb andb] in He;
    apply negb_true_iff in He; rewrite He; reflexivity.
Qed.

(** Lines 245-251: the probe's entry is committed, with its list, exactly
    when it is an entry for [recno]; nothing else of the position moves. *)
Lemma on_page_result (w : world) (recno : Z) (head : ptr)
    (c : WT_CURSOR_BTREE) :
  let ins := probe_ins w head c recno in
  let c' := snd (col_search_on_page w recno head c) in
  fst (col_search_on_page w recno head c) = 0
  /\ cbt_ref c' = cbt_ref c /\ cbt_recno c' = cbt_recno c
  /\ cbt_slot c' = cbt_slot c /\ cbt_compare c' = cbt_compare c
  /\ cbt_flags c' = cbt_flags c
  /\ (ins <> NULL /\ recno = WT_INSERT_RECNO w ins ->
      cbt_ins_head c' = head /\ cbt_ins c' = ins)
  /\ (~ (ins <> NULL /\ recno = WT_INSERT_RECNO w ins) ->
      cbt_ins_head c' = cbt_ins_head c /\ cbt_ins c' = cbt_ins c).
Proof.
  unfold col_search_on_page, probe_ins.
  destruct (__col_insert_search w head (cbt_ins_stack c) (cbt_next_stack c)
                                recno) as [[ins st] nst].
  cbn [fst snd].
  destruct (Z.eqb_spec ins NULL) as [Hnull | Hins];
    destruct (Z.eqb_spec recno (WT_INSERT_RECNO w ins)) as [Heq | Hne];
    cbn; repeat split; intros; tauto.
Qed.

(** Lines 266-292: the append list is set first; the probe runs unless
    [recno] is [UINT64_MAX]; without an entry [compare] is -1, with one the
    cursor takes its record number and [compare] orders it against
    [recno]; [WT_CBT_MAX_RECORD] is set when [compare] is -1. *)
Lemma past_end_result (w : world) (page : ptr) (recno : Z)
    (c : WT_CURSOR_BTREE) :
  let c' := snd (col_search_past_end w page recno c) in
  fst (col_search_past_end w page recno c) = 0
  /\ cbt_ref c' = cbt_ref c /\ cbt_slot c' = cbt_slot c
  /\ cbt_ins_head c' = WT_COL_APPEND w page
  /\ cbt_ins c' = (if recno =? UINT64_MAX then NULL
                   else probe_ins w (WT_COL_APPEND w page) c recno)
  /\ (cbt_ins c' = NULL ->
      cbt_compare c' = -1 /\ cbt_recno c' = cbt_recno c)
  /\ (cbt_ins c' <> NULL ->
      cbt_recno c' = WT_INSERT_RECNO w (cbt_ins c')
      /\ cbt_compare c' = Z.sgn (cbt_recno c' - recno))
  /\ (cbt_compare c' = -1 -> max_record_set c')
  /\ (recno = UINT64_MAX ->
      c' = F_SET (set_compare
                    (set_ins (set_ins_head c (WT_COL_APPEND w page)) NULL)
                    (-1))
                 WT_CBT_MAX_RECORD).
Proof.
  unfold col_search_past_end, probe_ins, max_record_set.
  destruct (Z.eqb_spec recno UINT64_MAX) as [Hmax | Hmax].
  - cbn. repeat split; intros; try reflexivity; try contradiction.
    apply land_lor_same.
  - cbn [cbt_ins_head cbt_ins_stack cbt_next_stack set_ins_head].
    destruct (__col_insert_search w (WT_COL_APPEND w page) (cbt_ins_stack c)
                (cbt_next_stack c) recno) as [[ins st] nst].
    cbn [fst snd set_ins set_stacks cbt_ins].
    destruct (Z.eqb_spec ins NULL) as [Hnull | Hins].
    + cbn. repeat split; intros; try reflexivity; try contradiction;
        try (exact Hnull); try lia.
      apply land_lor_same.
    + cbn [set_recno cbt_recno].
      destruct (Z.eqb_spec recno (WT_INSERT_RECNO w ins)) as [Heq | Hne];
        [|destruct (Z.ltb_spec recno (WT_INSERT_RECNO w ins)) as [Hlt | Hge]];
        cbn; repeat split; intros; try reflexivity; try contradiction;
        try lia; try apply land_lor_same.
Qed.

End LeafProperties.

(** ** The search as a whole *)

Section SearchProperties.

Context {env : Collaborators}.

(** The walk hands back an error only from a failed page cache call. *)
Lemma walk_error_nonzero (fuel : nat) :
  forall w recno current parent_pindex depth ret w',
    col_search_walk fuel w recno current parent_pindex depth
    = Done (WalkError ret w') ->
    ret <> 0.
Proof.
  induction fuel as [|fuel IH]; intros w recno current pp depth ret w' H;
    [discriminate|].
  cbn [col_search_walk] in H.
  destruct (page_type_eqb _ _); cbn [negb] in H; [|discriminate].
  destruct (WT_ASSERT _); cbn [bind] in H; try discriminate.
  destruct (intl_pick _ _ _) as [[[edge base] d0]| |]; cbn [bind] in H;
    try discriminate.
  assert (Hswap : forall descent,
    (let '(r, w2) := __wt_page_swap w current descent in
     if r =? 0 then
       col_search_walk fuel w2 recno descent
         (WT_INTL_INDEX_GET w (ref_page (w_ref w current))) (depth + 1)
     else if r =? WT_RESTART then
       col_search_walk fuel w2 recno current pp depth
     else Done (WalkError r w2)) = Done (WalkError ret w') ->
    ret <> 0).
  { intros descent Hs. destruct (__wt_page_swap w current descent) as [r w2].
    destruct (Z.eqb_spec r 0) as [Hr | Hr]; [exact (IH _ _ _ _ _ _ _ Hs)|].
    destruct (r =? WT_RESTART); [exact (IH _ _ _ _ _ _ _ Hs)|].
    inversion Hs; subst. exact Hr. }
  destruct (edge && negb (pp =? NULL) && __wt_split_intl_race _ _ _).
  - destruct (__wt_page_release w current) as [r w2].
    destruct (Z.eqb_spec r 0) as [Hr | Hr]; cbn [negb] in H.
    + exact (IH _ _ _ _ _ _ _ H).
    + inversion H; subst. exact Hr.
  - destruct (intl_descend_slot _ _ _ _ _); cbn [bind] in H;
      try discriminate.
    exact (Hswap _ H).
Qed.

(** The leaf search returns 0 and stores the leaf in the cursor. *)
Lemma col_search_leaf_ref (w : world) (recno : Z) (current : ptr)
    (c : WT_CURSOR_BTREE) :
  fst (col_search_leaf w recno current c) = 0
  /\ cbt_ref (snd (col_search_leaf w recno current c)) = current.
Proof.
  destruct (leaf_paths w (ref_page (w_ref w current)) recno)
    as [H | [H | H]].
  - rewrite (leaf_before_result w recno current c H). split; reflexivity.
  - rewrite (leaf_past_end_result w recno current c H).
    destruct (past_end_result w (ref_page (w_ref w current)) recno
                (set_recno (leaf_cursor c current recno)
                   (page_end_recno w (ref_page (w_ref w current)))))
      as (H0 & Href & _).
    split; [exact H0 | rewrite Href; reflexivity].
  - rewrite (leaf_on_page_result w recno current c H).
    destruct (on_page_result w recno
                (on_page_head w (ref_page (w_ref w current)) recno)
                (set_slot (leaf_cursor c current recno)
                   (on_page_slot w (ref_page (w_ref w current)) recno)))
      as (H0 & Href & _).
    split; [exact H0 | rewrite Href; reflexivity].
Qed.

(** C2, as the code has it.  After a return of 0 either the search went
    through the label [leaf_only], and [cbt->ref] is the leaf searched (the
    supplied leaf, not null, when one is supplied); or a supplied leaf with
    a [home] was ruled out by the range check ([compare != 0], [slot = 0]),
    and [cbt->ref] was not written: it is what the cursor clear left. *)
Theorem search_ref_written_at_leaf_only (fuel : nat) (w : world) (recno : Z)
    (leaf : ptr) (cbt cbt' : WT_CURSOR_BTREE) (w' : world) :
  __wt_col_search fuel w recno leaf cbt = Done (0, cbt', w') ->
  (exists current cbt1,
      col_search_locate fuel w recno leaf cbt
      = Done (LeafOnly current cbt1 w')
      /\ cbt_ref cbt' = current
      /\ (leaf <> NULL -> current = leaf /\ cbt_ref cbt' <> NULL))
  \/ (leaf <> NULL /\ ref_home (w_ref w leaf) <> NULL
      /\ col_search_locate fuel w recno leaf cbt = Done (Returned 0 cbt' w)
      /\ cbt_compare cbt' <> 0 /\ cbt_slot cbt' = 0
      /\ cbt_ref cbt' = cbt_ref (__cursor_pos_clear cbt)
      /\ w' = w).
Proof.
  intros H. unfold __wt_col_search in H.
  destruct (col_search_locate fuel w recno leaf cbt)
    as [[ret c wr | current c1 w1]| |] eqn:Hloc; cbn [bind] in H;
    try discriminate.
  - (* returned before [leaf_only] *)
    right. inversion H; subst ret c wr. clear H.
    unfold col_search_locate in Hloc.
    destruct (Z.eqb_spec leaf NULL) as [Hnull | Hleaf]; cbn [negb] in Hloc.
    + destruct (col_search_walk fuel w recno (bt_root w) NULL 2)
        as [[cur d wl | ret wl]| |] eqn:Hwalk; cbn [bind] in Hloc;
        try discriminate.
      inversion Hloc; subst. exfalso.
      exact (walk_error_nonzero _ _ _ _ _ _ _ _ Hwalk eq_refl).
    + destruct (Z.eqb_spec (ref_home (w_ref w leaf)) NULL) as [Hhome | Hhome];
        cbn [negb] in Hloc; [discriminate|].
      destruct (check_leaf_key_range_shape w recno leaf
                  (__cursor_pos_clear cbt)) as (v & Hv & _).
      rewrite Hv in Hloc. cbn in Hloc.
      destruct (Z.eqb_spec v 0) as [Hv0 | Hv0]; cbn in Hloc;
        inversion Hloc; subst.
      repeat split; try assumption; try reflexivity.
  - (* through [leaf_only] *)
    left. exists current, c1.
    destruct (locate_leaf_only _ _ _ _ _ _ _ _ Hloc) as ((v & ->) & Hsame).
    rewrite col_search_leaf_ignores_compare in H.
    destruct (col_search_leaf_ref w1 recno current (__cursor_pos_clear cbt))
      as (_ & Href).
    destruct (col_search_leaf w1 recno current (__cursor_pos_clear cbt))
      as [r c2].
    inversion H; subst. cbn [snd] in *.
    split; [reflexivity|]. split; [reflexivity|].
    intros Hleaf. destruct (Hsame Hleaf) as [-> _].
    split; [reflexivity | exact Hleaf].
Qed.

End SearchProperties.

Section LeafClaims.

Context {env : Collaborators}.

Variables (fuel : nat) (w : world) (recno : Z) (leaf : ptr)
          (cbt : WT_CURSOR_BTREE).
Variables (current : ptr) (cbt1 : WT_CURSOR_BTREE) (w1 : world).

Hypothesis at_leaf :
  col_search_locate fuel w recno leaf cbt = Done (LeafOnly current cbt1 w1).

Let page : ptr := ref_page (w_ref w1 current).
Let cleared : WT_CURSOR_BTREE := __cursor_pos_clear cbt.

Lemma search_before :
  leaf_before w1 page recno = true ->
  __wt_col_search fuel w recno leaf cbt
  = Done (0, set_compare (leaf_cursor cleared current recno) 1, w1).
Proof.
  intros H. rewrite (search_via_leaf _ _ _ _ _ _ _ _ at_leaf).
  rewrite (leaf_before_result w1 recno current _ H). reflexivity.
Qed.

Lemma search_past_end :
  leaf_past_end w1 page recno = true ->
  __wt_col_search fuel w recno leaf cbt
  = Done (0,
          snd (col_search_past_end w1 page recno
                 (set_recno (leaf_cursor cleared current recno)
                            (page_end_recno w1 page))),
          w1).
Proof.
  intros H. rewrite (search_via_leaf _ _ _ _ _ _ _ _ at_leaf).
  rewrite (leaf_past_end_result w1 recno current _ H).
  destruct (past_end_result w1 page recno
              (set_recno (leaf_cursor cleared current recno)
                         (page_end_recno w1 page))) as (H0 & _).
  fold page. fold cleared. rewrite H0. reflexivity.
Qed.

Lemma search_on_page :
  leaf_on_page w1 page recno = true ->
  __wt_col_search fuel w recno leaf cbt
  = Done (0,
          snd (col_search_on_page w1 recno (on_page_head w1 page recno)
                 (set_slot (leaf_cursor cleared current recno)
                           (on_page_slot w1 page recno))),
          w1).
Proof.
  intros H. rewrite (search_via_leaf _ _ _ _ _ _ _ _ at_leaf).
  rewrite (leaf_on_page_result w1 recno current _ H).
  destruct (on_page_result w1 recno (on_page_head w1 page recno)
              (set_slot (leaf_cursor cleared current recno)
                        (on_page_slot w1 page recno))) as (H0 & _).
  fold page. fold cleared. rewrite H0. reflexivity.
Qed.

(** C7.  For a record that is on the page, the search returns 0 and the
    cursor's [ins_head] and [ins] are the probed update list and the
    probe's entry when that entry is not null and has record number
    [recno]; in every other case both are null, as the cursor clear left
    them.  The rest of the position is the leaf, [recno], [compare = 0] and
    the slot of the page. *)
Theorem on_page_commits_exact_match_only :
  clear_unsets_ins cbt ->
  leaf_on_page w1 page recno = true ->
  let head := on_page_head w1 page recno in
  let ins := probe_ins w1 head cleared recno in
  exists cbt',
    __wt_col_search fuel w recno leaf cbt = Done (0, cbt', w1)
    /\ (ins <> NULL /\ recno = WT_INSERT_RECNO w1 ins ->
        cbt_ins_head cbt' = head /\ cbt_ins cbt' = ins)
    /\ (~ (ins <> NULL /\ recno = WT_INSERT_RECNO w1 ins) ->
        cbt_ins_head cbt' = NULL /\ cbt_ins cbt' = NULL)
    /\ cbt_ref cbt' = current /\ cbt_recno cbt' = recno
    /\ cbt_compare cbt' = 0
    /\ cbt_slot cbt' = on_page_slot w1 page recno.
Proof.
  intros [Hhead Hins] Hon head ins.
  eexists. split; [exact (search_on_page Hon)|].
  destruct (on_page_result w1 recno head
              (set_slot (leaf_cursor cleared current recno)
                        (on_page_slot w1 page recno)))
    as (_ & Href & Hrecno & Hslot & Hcmp & _ & Hyes & Hno).
  fold head.
  split; [exact Hyes|]. split.
  - intros Hn. destruct (Hno Hn) as [-> ->]. split; assumption.
  - repeat split; assumption.
Qed.

(** C8.  For [recno = UINT64_MAX] past the end of the page, the search
    returns 0 with a cursor that does not depend on the probe: the stacks
    are as the cursor clear left them, [ins_head] is the append list of the
    page, [ins] is null, [compare] is -1 and [WT_CBT_MAX_RECORD] is set. *)
Theorem allocation_sentinel_skips_probe :
  recno = UINT64_MAX ->
  leaf_past_end w1 page recno = true ->
  exists cbt',
    __wt_col_search fuel w recno leaf cbt = Done (0, cbt', w1)
    /\ cbt' = F_SET (set_compare
                       (set_ins
                          (set_ins_head
                             (set_recno (leaf_cursor cleared current recno)
                                        (page_end_recno w1 page))
                             (WT_COL_APPEND w1 page))
                          NULL)
                       (-1))
                    WT_CBT_MAX_RECORD
    /\ cbt_ins_head cbt' = WT_COL_APPEND w1 page
    /\ cbt_ins cbt' = NULL
    /\ cbt_compare cbt' = -1
    /\ max_record_set cbt'
    /\ cbt_ins_stack cbt' = cbt_ins_stack cleared
    /\ cbt_next_stack cbt' = cbt_next_stack cleared.
Proof.
  intros Hmax Hpast.
  eexists. split; [exact (search_past_end Hpast)|].
  destruct (past_end_result w1 page recno
              (set_recno (leaf_cursor cleared current recno)
                         (page_end_recno w1 page)))
    as (_ & _ & _ & _ & _ & _ & _ & _ & Hexp).
  rewrite (Hexp Hmax).
  repeat split. unfold max_record_set. cbn. apply land_lor_same.
Qed.

(** C10.  Past the end of the page the cursor's [ins_head] is the append
    list of the page whatever the probe finds: also on a miss, where [ins]
    is null, [compare] is -1 and [WT_CBT_MAX_RECORD] is set.  On the page,
    [ins_head] is null unless the probe of the update list found an entry
    for [recno]. *)
Theorem append_branch_sets_ins_head :
  clear_unsets_ins cbt ->
  (leaf_past_end w1 page recno = true ->
   exists cbt',
     __wt_col_search fuel w recno leaf cbt = Done (0, cbt', w1)
     /\ cbt_ins_head cbt' = WT_COL_APPEND w1 page
     /\ cbt_ins cbt'
        = (if recno =? UINT64_MAX then NULL
           else probe_ins w1 (WT_COL_APPEND w1 page) cleared recno)
     /\ (cbt_ins cbt' = NULL ->
         cbt_compare cbt' = -1 /\ max_record_set cbt'))
  /\ (leaf_on_page w1 page recno = true ->
      let ins := probe_ins w1 (on_page_head w1 page recno) cleared recno in
      exists cbt',
        __wt_col_search fuel w recno leaf cbt = Done (0, cbt', w1)
        /\ (ins <> NULL /\ recno = WT_INSERT_RECNO w1 ins ->
            cbt_ins_head cbt' = on_page_head w1 page recno)
        /\ (~ (ins <> NULL /\ recno = WT_INSERT_RECNO w1 ins) ->
            cbt_ins_head cbt' = NULL)).
Proof.
  intros [Hhead Hins]. split.
  - intros Hpast.
    eexists. split; [exact (search_past_end Hpast)|].
    destruct (past_end_result w1 page recno
                (set_recno (leaf_cursor cleared current recno)
                           (page_end_recno w1 page)))
      as (_ & _ & _ & Happ & Hi & Hmiss & _ & Hflag & _).
    split; [exact Happ|]. split; [exact Hi|].
    intros Hnull. destruct (Hmiss Hnull) as [Hc _].
    split; [exact Hc | exact (Hflag Hc)].
  - intros Hon ins.
    eexists. split; [exact (search_on_page Hon)|].
    destruct (on_page_result w1 recno (on_page_head w1 page recno)
                (set_slot (leaf_cursor cleared current recno)
                          (on_page_slot w1 page recno)))
      as (_ & _ & _ & _ & _ & _ & Hyes & Hno).
    split.
    + intros Hm. exact (proj1 (Hyes Hm)).
    + intros Hn. destruct (Hno Hn) as [-> _]. exact Hhead.
Qed.

(** C5, as the code has it.  Past the end of the page, when the probe of
    the append list hands back an entry, the cursor takes the entry and its
    record number, and [compare] is the sign of [match.recno - recno]: 0 on
    equality, +1 when [recno < match.recno] and -1 when [recno >
    match.recno], the opposite of the sign of [recno - match.recno]. *)
Theorem append_match_compare :
  leaf_past_end w1 page recno = true ->
  recno <> UINT64_MAX ->
  let ins := probe_ins w1 (WT_COL_APPEND w1 page) cleared recno in
  ins <> NULL ->
  exists cbt',
    __wt_col_search fuel w recno leaf cbt = Done (0, cbt', w1)
    /\ cbt_ins cbt' = ins
    /\ cbt_recno cbt' = WT_INSERT_RECNO w1 ins
    /\ cbt_compare cbt' = Z.sgn (WT_INSERT_RECNO w1 ins - recno)
    /\ cbt_compare cbt' = - Z.sgn (recno - WT_INSERT_RECNO w1 ins)
    /\ (recno = WT_INSERT_RECNO w1 ins -> cbt_compare cbt' = 0)
    /\ (recno < WT_INSERT_RECNO w1 ins -> cbt_compare cbt' = 1)
    /\ (recno > WT_INSERT_RECNO w1 ins -> cbt_compare cbt' = -1).
Proof.
  intros Hpast Hmax ins Hins.
  eexists. split; [exact (search_past_end Hpast)|].
  destruct (past_end_result w1 page recno
              (set_recno (leaf_cursor cleared current recno)
                         (page_end_recno w1 page)))
    as (_ & _ & _ & _ & Hi & _ & Hhit & _).
  destruct (Z.eqb_spec recno UINT64_MAX) as [|_]; [contradiction|].
  change (probe_ins w1 (WT_COL_APPEND w1 page)
            (set_recno (leaf_cursor cleared current recno)
                       (page_end_recno w1 page)) recno) with ins in Hi.
  rewrite Hi in Hhit. destruct (Hhit Hins) as [Hr Hc].
  rewrite Hr in Hc. rewrite Hi, Hr, Hc.
  repeat split; lia.
Qed.

(** C3, as the code has it.  A search through [leaf_only] returns 0, and
    where it sets [compare] to +1 or -1: past the end of the page with an
    entry from the append list, the cursor's record number is the entry's
    and [sign(recno - cbt->recno) = -compare]; for a record before the
    page, [compare] is +1 and the cursor's record number is [recno] itself;
    past the end without an entry, [compare] is -1 and the cursor's record
    number is the end of the page, which on a fixed-length page is at most
    [recno], so the sign of the difference is 0 or +1. *)
Theorem sign_law_on_leaf_paths :
  exists cbt',
    __wt_col_search fuel w recno leaf cbt = Done (0, cbt', w1)
    /\ (leaf_before w1 page recno = true ->
        cbt_compare cbt' = 1 /\ cbt_recno cbt' = recno)
    /\ (leaf_past_end w1 page recno = true -> cbt_ins cbt' <> NULL ->
        cbt_recno cbt' = WT_INSERT_RECNO w1 (cbt_ins cbt')
        /\ Z.sgn (recno - cbt_recno cbt') = - cbt_compare cbt')
    /\ (leaf_past_end w1 page recno = true -> cbt_ins cbt' = NULL ->
        cbt_compare cbt' = -1
        /\ cbt_recno cbt' = page_end_recno w1 page
        /\ (pg_type (w_page w1 page) = WT_PAGE_COL_FIX ->
            cbt_recno cbt' <= recno
            /\ (Z.sgn (recno - cbt_recno cbt') = 0
                \/ Z.sgn (recno - cbt_recno cbt') = 1))).
Proof.
  rewrite (search_via_leaf _ _ _ _ _ _ _ _ at_leaf).
  fold cleared.
  destruct (col_search_leaf_ref w1 recno current cleared) as (H0 & _).
  rewrite H0. eexists. split; [reflexivity|].
  split; [|split].
  - intros H. rewrite (leaf_before_result w1 recno current _ H).
    split; reflexivity.
  - intros H. rewrite (leaf_past_end_result w1 recno current _ H).
    fold page.
    destruct (past_end_result w1 page recno
                (set_recno (leaf_cursor cleared current recno)
                           (page_end_recno w1 page)))
      as (_ & _ & _ & _ & _ & _ & Hhit & _).
    intros Hins. destruct (Hhit Hins) as [Hr Hc].
    split; [exact Hr|]. rewrite Hc. lia.
  - intros H. rewrite (leaf_past_end_result w1 recno current _ H).
    fold page.
    destruct (past_end_result w1 page recno
                (set_recno (leaf_cursor cleared current recno)
                           (page_end_recno w1 page)))
      as (_ & _ & _ & _ & _ & Hmiss & _).
    intros Hins. destruct (Hmiss Hins) as [Hc Hr].
    split; [exact Hc|]. split; [exact Hr|].
    intros Hfix. rewrite Hr. cbn [cbt_recno set_recno].
    unfold leaf_past_end in H. unfold page_end_recno.
    rewrite Hfix in *. cbn [page_type_eqb] in *.
    apply andb_prop in H. destruct H as [_ H]. apply Z.geb_le in H.
    lia.
Qed.

(** C4, as the code has it.  Scenario S1: on a fixed-length page with
    [pg_fix_recno = 100] and [pg_fix_entries = 50] whose update list holds
    no entry for the probe to hand back, the search for record 125 returns
    0 with [compare = 0] and the cursor's record number 125 on that leaf;
    the fixed-length path stores no slot, so [slot] stays [UINT32_MAX]; and
    the update list is probed but not committed: [ins_head] and [ins] are
    null. *)
Theorem fixed_on_page_without_update :
  recno = 125 ->
  pg_type (w_page w1 page) = WT_PAGE_COL_FIX ->
  pg_fix_recno (w_page w1 page) = 100 ->
  pg_fix_entries (w_page w1 page) = 50 ->
  probe_ins w1 (WT_COL_UPDATE_SINGLE w1 page) cleared recno = NULL ->
  clear_unsets_ins cbt ->
  exists cbt',
    __wt_col_search fuel w recno leaf cbt = Done (0, cbt', w1)
    /\ cbt_compare cbt' = 0
    /\ cbt_slot cbt' = UINT32_MAX
    /\ cbt_recno cbt' = 125
    /\ cbt_ref cbt' = current
    /\ cbt_ins_head cbt' = NULL
    /\ cbt_ins cbt' = NULL.
Proof.
  intros Hrecno Hfix Hstart Hcount Hprobe [Hhead Hins].
  assert (Hon : leaf_on_page w1 page recno = true).
  { unfold leaf_on_page, leaf_before, leaf_past_end.
    rewrite Hfix, Hstart, Hcount, Hrecno. reflexivity. }
  assert (Hh : on_page_head w1 page recno = WT_COL_UPDATE_SINGLE w1 page).
  { unfold on_page_head. rewrite Hfix. reflexivity. }
  assert (Hs : on_page_slot w1 page recno = UINT32_MAX).
  { unfold on_page_slot. rewrite Hfix. reflexivity. }
  eexists. split; [exact (search_on_page Hon)|].
  destruct (on_page_result w1 recno (on_page_head w1 page recno)
              (set_slot (leaf_cursor cleared current recno)
                        (on_page_slot w1 page recno)))
    as (_ & Href & Hr & Hslot & Hcmp & _ & _ & Hno).
  rewrite Hcmp, Hslot, Hr, Href.
  destruct Hno as [-> ->].
  - intros [Hnn _]. apply Hnn. rewrite Hh. exact Hprobe.
  - cbn. rewrite Hs. repeat split; assumption.
Qed.

End LeafClaims.

(** ** A supplied leaf and a record before its page *)

Section PinnedLeaf.

Context {env : Collaborators}.

(** C9, as the code has it.  Scenario S2, record 50 against a supplied
    leaf whose fixed-length page starts at record 100.  A leaf with a
    [home] and key 100 is ruled out by the range check: the search returns
    0 with [compare = +1] and [slot = 0] and writes neither [cbt->ref] nor
    [cbt->recno], which stay as the cursor clear left them.  A leaf without
    a [home] is searched: the search returns 0 with [compare = +1] and
    [cbt->ref] the leaf, and [slot] is [UINT32_MAX]. *)
Theorem before_page_pinned_leaf (fuel : nat) (w : world) (leaf : ptr)
    (cbt : WT_CURSOR_BTREE) :
  leaf <> NULL ->
  pg_type (w_page w (ref_page (w_ref w leaf))) = WT_PAGE_COL_FIX ->
  pg_fix_recno (w_page w (ref_page (w_ref w leaf))) = 100 ->
  (ref_home (w_ref w leaf) <> NULL -> key_recno w leaf = 100 ->
   exists cbt',
     __wt_col_search fuel w 50 leaf cbt = Done (0, cbt', w)
     /\ cbt_compare cbt' = 1 /\ cbt_slot cbt' = 0
     /\ cbt_ref cbt' = cbt_ref (__cursor_pos_clear cbt)
     /\ cbt_recno cbt' = cbt_recno (__cursor_pos_clear cbt))
  /\ (ref_home (w_ref w leaf) = NULL ->
      exists cbt',
        __wt_col_search fuel w 50 leaf cbt = Done (0, cbt', w)
        /\ cbt_compare cbt' = 1 /\ cbt_slot cbt' = UINT32_MAX
        /\ cbt_ref cbt' = leaf /\ cbt_recno cbt' = 50).
Proof.
  intros Hleaf Hfix Hstart. split.
  - intros Hhome Hkey.
    unfold __wt_col_search, col_search_locate, __check_leaf_key_range.
    destruct (Z.eqb_spec leaf NULL) as [|_]; [contradiction|].
    destruct (Z.eqb_spec (ref_home (w_ref w leaf)) NULL) as [|_];
      [contradiction|].
    rewrite Hkey. cbn. eexists. split; [reflexivity|].
    repeat split.
  - intros Hhome.
    assert (Hloc : col_search_locate fuel w 50 leaf cbt
                   = Done (LeafOnly leaf (__cursor_pos_clear cbt) w)).
    { unfold col_search_locate.
      destruct (Z.eqb_spec leaf NULL) as [|_]; [contradiction|].
      rewrite Hhome. reflexivity. }
    assert (Hbefore : leaf_before w (ref_page (w_ref w leaf)) 50 = true).
    { unfold leaf_before. rewrite Hfix, Hstart. reflexivity. }
    eexists. split; [exact (search_before _ _ _ _ _ _ _ _ Hloc Hbefore)|].
    repeat split.
Qed.

End PinnedLeaf.

(** ** The scenarios on the small tree *)

Lemma tree_clear_unsets_ins (upd app : list ptr) (c : WT_CURSOR_BTREE) :
  @clear_unsets_ins (tree_env upd app) c.
Proof. split; reflexivity. Qed.

(** Record 155 with the supplied leaf 12 (page 102, key 100, next key 150):
    the range check rules the leaf out and the search returns 0 with a null
    [cbt->ref].  The cursor had no reference before the call, so this does
    not depend on what the cursor clear does to [ref]. *)
Lemma early_return_leaves_ref_null :
  exists cbt',
    @__wt_col_search (tree_env [] []) 0 tree 155 12 fresh_cursor
    = Done (0, cbt', tree)
    /\ cbt_compare cbt' = -1 /\ cbt_slot cbt' = 0 /\ cbt_ref cbt' = NULL.
Proof.
  eexists. split; [reflexivity|]. repeat split.
Qed.

(** The same leaf with record 125, which is on its page: the search goes
    through [leaf_only] and the cursor references the leaf. *)
Lemma search_ref_written_at_leaf_only_witness :
  (exists current cbt1,
      @col_search_locate (tree_env [] []) 0 tree 125 12 fresh_cursor
      = Done (LeafOnly current cbt1 tree)
      /\ cbt_ref (mkCbt 12 125 UINT32_MAX 0 NULL NULL [NULL] [NULL] 0)
         = current
      /\ (12 <> NULL ->
          current = 12
          /\ cbt_ref (mkCbt 12 125 UINT32_MAX 0 NULL NULL [NULL] [NULL] 0)
             <> NULL))
  \/ (12 <> NULL /\ ref_home (w_ref tree 12) <> NULL
      /\ @col_search_locate (tree_env [] []) 0 tree 125 12 fresh_cursor
         = Done (Returned 0
                   (mkCbt 12 125 UINT32_MAX 0 NULL NULL [NULL] [NULL] 0)
                   tree)
      /\ cbt_compare (mkCbt 12 125 UINT32_MAX 0 NULL NULL [NULL] [NULL] 0)
         <> 0
      /\ cbt_slot (mkCbt 12 125 UINT32_MAX 0 NULL NULL [NULL] [NULL] 0) = 0
      /\ cbt_ref (mkCbt 12 125 UINT32_MAX 0 NULL NULL [NULL] [NULL] 0)
         = cbt_ref (@__cursor_pos_clear (tree_env [] []) fresh_cursor)
      /\ tree = tree).
Proof.
  apply (@search_ref_written_at_leaf_only (tree_env [] []) 0 tree 125 12
           fresh_cursor).
  reflexivity.
Defined.

(** Record 50 with the supplied leaf 14 (page 102 from record 100, no
    [home]): [compare] is +1 and the cursor's record number is 50 itself,
    so the sign of [recno - cbt->recno] is 0, not -1. *)
Lemma sign_law_fails_before_page :
  exists cbt',
    @__wt_col_search (tree_env [] []) 0 tree 50 14 fresh_cursor
    = Done (0, cbt', tree)
    /\ cbt_compare cbt' = 1 /\ cbt_recno cbt' = 50
    /\ Z.sgn (50 - cbt_recno cbt') = 0
    /\ Z.sgn (50 - cbt_recno cbt') <> - cbt_compare cbt'.
Proof.
  eexists. split; [reflexivity|]. repeat split. cbn. lia.
Qed.

(** Record 180 past page 102 with record 170 on the append list: the
    entry is the cursor's position and the sign law holds. *)
Lemma sign_law_on_leaf_paths_witness :
  exists cbt',
    @__wt_col_search (tree_env [] [401]) 0 tree 180 14 fresh_cursor
    = Done (0, cbt', tree)
    /\ cbt_recno cbt' = 170
    /\ Z.sgn (180 - cbt_recno cbt') = - cbt_compare cbt'.
Proof.
  destruct (@sign_law_on_leaf_paths (tree_env [] [401]) 0 tree 180 14
              fresh_cursor 14 (@__cursor_pos_clear (tree_env [] [401])
                                 fresh_cursor) tree eq_refl)
    as (cbt' & Hrun & _ & Hhit & _).
  exists cbt'. split; [exact Hrun|].
  assert (Hc : cbt' = mkCbt 14 170 UINT32_MAX (-1) 301 401 [401] [NULL] 16).
  { assert (Hd : Done (0, cbt', tree)
                 = Done (0, mkCbt 14 170 UINT32_MAX (-1) 301 401 [401]
                                  [NULL] 16, tree))
      by (rewrite <- Hrun; reflexivity).
    inversion Hd. reflexivity. }
  destruct Hhit as [Hr Hs]; [reflexivity | rewrite Hc; by_eval |].
  split; [rewrite Hc; reflexivity | exact Hs].
Defined.

(** Scenario S1 on the small tree: record 125 with the supplied leaf 12.
    The page has the update list 300, which is empty; the cursor comes back
    with [slot = UINT32_MAX], not 25, and with a null [ins_head], not the
    update list. *)
Lemma fixed_match_has_no_slot_nor_ins_head :
  exists cbt',
    @__wt_col_search (tree_env [] []) 0 tree 125 12 fresh_cursor
    = Done (0, cbt', tree)
    /\ cbt_compare cbt' = 0
    /\ cbt_slot cbt' = UINT32_MAX /\ cbt_slot cbt' <> 125 - 100
    /\ @WT_COL_UPDATE_SINGLE (tree_env [] []) tree 102 = 300
    /\ cbt_ins_head cbt' = NULL
    /\ cbt_ins_head cbt' <> @WT_COL_UPDATE_SINGLE (tree_env [] []) tree 102
    /\ cbt_ins cbt' = NULL.
Proof.
  eexists. split; [reflexivity|]. repeat split; by_eval.
Qed.

Lemma fixed_on_page_without_update_witness :
  exists cbt',
    @__wt_col_search (tree_env [] []) 0 tree 125 12 fresh_cursor
    = Done (0, cbt', tree)
    /\ cbt_compare cbt' = 0
    /\ cbt_slot cbt' = UINT32_MAX
    /\ cbt_recno cbt' = 125
    /\ cbt_ref cbt' = 12
    /\ cbt_ins_head cbt' = NULL
    /\ cbt_ins cbt' = NULL.
Proof.
  apply (@fixed_on_page_without_update (tree_env [] []) 0 tree 125 12
           fresh_cursor 12
           (set_compare (@__cursor_pos_clear (tree_env [] []) fresh_cursor) 0)
           tree);
    try reflexivity.
  apply tree_clear_unsets_ins.
Defined.

(** Record 180 past page 102 with record 170 on the append list: the probe
    hands back the entry 401, and [compare] is -1 where the sign of [recno
    - match.recno] is +1. *)
Lemma append_match_compare_is_reversed :
  exists cbt',
    @__wt_col_search (tree_env [] [401]) 0 tree 180 14 fresh_cursor
    = Done (0, cbt', tree)
    /\ cbt_ins_head cbt' = 301
    /\ cbt_ins cbt' = 401
    /\ @WT_INSERT_RECNO (tree_env [] [401]) tree (cbt_ins cbt') = 170
    /\ cbt_compare cbt' = -1
    /\ Z.sgn (180 - 170) = 1
    /\ cbt_compare cbt'
       <> Z.sgn (180 - @WT_INSERT_RECNO (tree_env [] [401]) tree (cbt_ins cbt')).
Proof.
  eexists. split; [reflexivity|]. repeat split; by_eval.
Qed.

Lemma append_match_compare_witness :
  exists cbt',
    @__wt_col_search (tree_env [] [401]) 0 tree 180 14 fresh_cursor
    = Done (0, cbt', tree)
    /\ cbt_ins cbt' = 401
    /\ cbt_recno cbt' = 170
    /\ cbt_compare cbt' = Z.sgn (170 - 180)
    /\ cbt_compare cbt' = - Z.sgn (180 - 170)
    /\ (180 = 170 -> cbt_compare cbt' = 0)
    /\ (180 < 170 -> cbt_compare cbt' = 1)
    /\ (180 > 170 -> cbt_compare cbt' = -1).
Proof.
  apply (@append_match_compare (tree_env [] [401]) 0 tree 180 14 fresh_cursor
           14 (@__cursor_pos_clear (tree_env [] [401]) fresh_cursor) tree);
    try reflexivity; by_eval.
Defined.

(** Page 102 with an update of record 125 (entry 402) on its update list:
    the search for 125 commits the list and the entry; the search for 126
    is handed the same entry by the probe and commits nothing. *)
Lemma on_page_commits_exact_match_only_witness :
  (exists cbt',
      @__wt_col_search (tree_env [402] []) 0 tree 125 12 fresh_cursor
      = Done (0, cbt', tree)
      /\ cbt_ins_head cbt' = 300 /\ cbt_ins cbt' = 402)
  /\ (exists cbt',
         @__wt_col_search (tree_env [402] []) 0 tree 126 12 fresh_cursor
         = Done (0, cbt', tree)
         /\ cbt_ins_head cbt' = NULL /\ cbt_ins cbt' = NULL).
Proof.
  split.
  - destruct (@on_page_commits_exact_match_only (tree_env [402] []) 0 tree
                125 12 fresh_cursor 12
                (set_compare (@__cursor_pos_clear (tree_env [402] [])
                                fresh_cursor) 0)
                tree eq_refl (tree_clear_unsets_ins _ _ _) eq_refl)
      as (cbt' & Hrun & Hyes & _).
    exists cbt'. split; [exact Hrun|]. apply Hyes. by_eval.
  - destruct (@on_page_commits_exact_match_only (tree_env [402] []) 0 tree
                126 12 fresh_cursor 12
                (set_compare (@__cursor_pos_clear (tree_env [402] [])
                                fresh_cursor) 0)
                tree eq_refl (tree_clear_unsets_ins _ _ _) eq_refl)
      as (cbt' & Hrun & _ & Hno & _).
    exists cbt'. split; [exact Hrun|]. apply Hno.
    intros [_ Heq]. revert Heq. by_eval.
Defined.

(** The allocation sentinel from the root of the small tree: the walk takes
    the right edge to reference 13, whose variable-length page ends at
    record 184. *)
Lemma allocation_sentinel_skips_probe_witness :
  exists cbt',
    @__wt_col_search (tree_env [] []) 3 tree UINT64_MAX NULL fresh_cursor
    = Done (0, cbt', set_maximum_depth tree 3)
    /\ cbt_ref cbt' = 13
    /\ cbt_ins_head cbt' = 320
    /\ cbt_ins cbt' = NULL
    /\ cbt_compare cbt' = -1
    /\ @max_record_set (tree_env [] []) cbt'.
Proof.
  destruct (@allocation_sentinel_skips_probe (tree_env [] []) 3 tree
              UINT64_MAX NULL fresh_cursor 13
              (@__cursor_pos_clear (tree_env [] []) fresh_cursor)
              (set_maximum_depth tree 3) eq_refl eq_refl eq_refl)
    as (cbt' & Hrun & Hexp & Hhead & Hins & Hcmp & Hflag & _).
  exists cbt'. split; [exact Hrun|].
  split; [rewrite Hexp; reflexivity|].
  split; [rewrite Hhead; reflexivity|].
  repeat split; assumption.
Defined.

(** Scenario S4 on the small tree: record 200 past page 102 with an empty
    append list.  The miss still leaves the append list 301 in the
    cursor. *)
Lemma append_branch_sets_ins_head_witness :
  exists cbt',
    @__wt_col_search (tree_env [] []) 0 tree 200 14 fresh_cursor
    = Done (0, cbt', tree)
    /\ cbt_ins_head cbt' = 301
    /\ cbt_ins cbt' = NULL
    /\ cbt_compare cbt' = -1
    /\ @max_record_set (tree_env [] []) cbt'.
Proof.
  destruct (@append_branch_sets_ins_head (tree_env [] []) 0 tree 200 14
              fresh_cursor 14
              (@__cursor_pos_clear (tree_env [] []) fresh_cursor)
              tree eq_refl (tree_clear_unsets_ins _ _ _)) as [Hpast _].
  destruct (Hpast eq_refl) as (cbt' & Hrun & Hhead & Hins & Hmiss).
  exists cbt'. split; [exact Hrun|].
  split; [rewrite Hhead; reflexivity|].
  assert (Hnull : cbt_ins cbt' = NULL) by (rewrite Hins; reflexivity).
  split; [exact Hnull | exact (Hmiss Hnull)].
Defined.

(** Scenario S2 on the small tree, record 50 before page 102.  With the
    supplied leaf 12, which has a [home], the search returns [compare = +1]
    and [slot = 0] but leaves [cbt->ref] null: the cursor had no reference
    before the call, so this does not depend on what the cursor clear does
    to [ref].  With the supplied leaf 14, which has none, [cbt->ref] is the
    leaf and [compare] is +1, but [slot] is [UINT32_MAX]. *)
Lemma before_page_ref_or_slot_differs :
  (exists cbt',
      @__wt_col_search (tree_env [] []) 0 tree 50 12 fresh_cursor
      = Done (0, cbt', tree)
      /\ cbt_compare cbt' = 1 /\ cbt_slot cbt' = 0
      /\ cbt_ref cbt' = NULL /\ cbt_ref cbt' <> 12)
  /\ (exists cbt',
         @__wt_col_search (tree_env [] []) 0 tree 50 14 fresh_cursor
         = Done (0, cbt', tree)
         /\ cbt_compare cbt' = 1 /\ cbt_ref cbt' = 14
         /\ cbt_slot cbt' = UINT32_MAX /\ cbt_slot cbt' <> 0).
Proof.
  split; eexists; (split; [reflexivity|]); repeat split; by_eval.
Qed.

Lemma before_page_pinned_leaf_witness :
  (exists cbt',
      @__wt_col_search (tree_env [] []) 0 tree 50 12 fresh_cursor
      = Done (0, cbt', tree)
      /\ cbt_compare cbt' = 1 /\ cbt_slot cbt' = 0
      /\ cbt_ref cbt'
         = cbt_ref (@__cursor_pos_clear (tree_env [] []) fresh_cursor)
      /\ cbt_recno cbt'
         = cbt_recno (@__cursor_pos_clear (tree_env [] []) fresh_cursor))
  /\ (exists cbt',
         @__wt_col_search (tree_env [] []) 0 tree 50 14 fresh_cursor
         = Done (0, cbt', tree)
         /\ cbt_compare cbt' = 1 /\ cbt_slot cbt' = UINT32_MAX
         /\ cbt_ref cbt' = 14 /\ cbt_recno cbt' = 50).
Proof.
  split.
  - apply (@before_page_pinned_leaf (tree_env [] []) 0 tree 12 fresh_cursor);
      by_eval.
  - apply (@before_page_pinned_leaf (tree_env [] []) 0 tree 14 fresh_cursor);
      by_eval.
Defined.

(** * Further properties *)

(** ** Selection: bounds and the first key *)

(** The loop on any index, sorted or not: it ends within the fuel, [base]
    stays inside the bracket and [descent] is the caller's or a slot of the
    bracket. *)
Lemma intl_bsearch_bounds (w : world) (pindex : WT_PAGE_INDEX) (recno : Z)
    (fuel : nat) :
  forall base limit d0,
    0 <= base -> 0 <= limit < 2 ^ Z.of_nat fuel ->
    base + limit <= UINT32_MAX ->
    exists base' d,
      intl_bsearch fuel w pindex recno base limit d0 = Done (base', d)
      /\ base <= base' <= base + limit
      /\ (d = d0 \/ exists i, base <= i < base + limit /\ d = index_at pindex i).
Proof.
  induction fuel as [|f IH]; intros base limit d0 Hb Hl Hbl.
  - assert (limit = 0) by (simpl in Hl; lia). subst limit. simpl.
    exists base, d0. split; [reflexivity|]. split; [lia | left; reflexivity].
  - cbn [intl_bsearch]. destruct (limit =? 0) eqn:El.
    + apply Z.eqb_eq in El. subst limit.
      exists base, d0. split; [reflexivity|].
      split; [lia | left; reflexivity].
    + apply Z.eqb_neq in El. rewrite pow2_succ in Hl. rewrite !shiftr_1.
      assert (Hhalf : 0 <= limit / 2 < limit) by (Z.div_mod_to_equations; lia).
      rewrite (wrap32_small (base + limit / 2)) by lia.
      set (indx := base + limit / 2).
      destruct (recno =? key_recno w (index_at pindex indx)).
      * exists base, (index_at pindex indx). split; [reflexivity|].
        split; [lia|]. right. exists indx. subst indx. split; [lia|reflexivity].
      * destruct (recno <? key_recno w (index_at pindex indx)).
        -- destruct (IH base (limit / 2) (index_at pindex indx))
             as (b & d & Hrun & Hb' & Hd); try lia.
           { Z.div_mod_to_equations; lia. }
           exists b, d. split; [exact Hrun|]. split; [lia|].
           right. destruct Hd as [-> | (i & Hi & ->)].
           ++ exists indx. subst indx. split; [lia|reflexivity].
           ++ exists i. split; [lia|reflexivity].
        -- rewrite (wrap32_small (indx + 1)) by (subst indx; lia).
           rewrite (wrap32_small (limit - 1)) by lia.
           assert (Hsum : indx + 1 + (limit - 1) / 2 = base + limit)
             by (subst indx; Z.div_mod_to_equations; lia).
           destruct (IH (indx + 1) ((limit - 1) / 2) (index_at pindex indx))
             as (b & d & Hrun & Hb' & Hd); try (subst indx; lia).
           { Z.div_mod_to_equations; lia. }
           exists b, d. split; [exact Hrun|]. split; [subst indx; lia|].
           right. destruct Hd as [-> | (i & Hi & ->)].
           ++ exists indx. subst indx. split; [lia|reflexivity].
           ++ exists i. split; [subst indx; lia|reflexivity].
Qed.





(** The step of C1 for the walk: the selection yields the child of a slot
    that covers [recno]. *)
Lemma intl_step_covers (w : world) (pindex : WT_PAGE_INDEX) (recno : Z) :
  1 <= pindex_entries pindex <= UINT32_MAX ->
  keys_increasing w pindex ->
  key_recno w (index_at pindex 0) <= recno ->
  exists edge base d0 i,
    intl_pick w pindex recno = Done (edge, base, d0)
    /\ intl_descend_slot w pindex recno base d0 = Done (index_at pindex i)
    /\ covers w pindex recno i.
Proof.
  intros Hn Hinc Hfirst. unfold intl_pick.
  rewrite (wrap32_small (pindex_entries pindex - 1)) by lia.
  set (n := pindex_entries pindex) in *.
  set (last := index_at pindex (n - 1)).
  destruct (Z.geb_spec recno (key_recno w last)) as [Hedge | Hlt].
  - exists true, n, last, (n - 1). split; [reflexivity|]. split.
    + unfold intl_descend_slot. destruct (recno =? key_recno w last);
        [reflexivity|].
      cbn [negb]. replace (n >? 0) with true by (symmetry; apply Z.gtb_lt; lia).
      cbn. rewrite wrap32_small by lia. reflexivity.
    + unfold covers. fold n. fold last. lia.
  - destruct (intl_bsearch_spec w pindex recno Hn Hinc 32 0 (n - 1) last)
      as (base & d & Hrun & Hres).
    + lia.
    + change (2 ^ Z.of_nat 32) with 4294967296. unfold UINT32_MAX in Hn.
      fold n in Hn. lia.
    + fold n. lia.
    + lia.
    + intros i Hi. lia.
    + intros i Hi. fold n in Hi. replace i with (n - 1) by lia. exact Hlt.
    + fold n in Hres. rewrite Hrun. cbn [bind].
      destruct Hres as [(i & Hi & -> & Heq) | (Hne & Hb & Hlo & Hhi)].
      * exists false, base, (index_at pindex i), i.
        split; [reflexivity|]. split.
        -- unfold intl_descend_slot.
           replace (recno =? key_recno w (index_at pindex i)) with true
             by (symmetry; apply Z.eqb_eq; exact Heq).
           reflexivity.
        -- unfold covers. fold n. repeat split; try lia. right.
           rewrite Heq. apply Hinc; fold n; lia.
      * assert (Hpos : 0 < base).
        { destruct (Z.eq_dec base 0) as [->|]; [|lia].
          specialize (Hhi 0). lia. }
        exists false, base, d, (base - 1).
        split; [reflexivity|]. split.
        -- unfold intl_descend_slot.
           replace (recno =? key_recno w d) with false
             by (symmetry; apply Z.eqb_neq; exact Hne).
           cbn [negb].
           replace (base >? 0) with true by (symmetry; apply Z.gtb_lt; lia).
           cbn. rewrite wrap32_small by lia. reflexivity.
        -- unfold covers. fold n. split; [lia|]. split.
           ++ apply Z.lt_le_incl, Hlo. lia.
           ++ right. replace (base - 1 + 1) with base by lia. apply Hhi. lia.
Qed.

(** ** The range check against the parent's index *)

(** X3.  When the hint is right (slot [h] of the parent's index is the
    leaf), the check is exact: [compare] is 0 exactly when slot [h] covers
    [recno], +1 exactly when [recno] is below the leaf's key, and -1
    exactly when [recno] is at or above the key of slot [h + 1]. *)
Theorem check_leaf_key_range_exact (w : world) (recno : Z) (leaf : ptr)
    (cbt : WT_CURSOR_BTREE) :
  let h := ref_pindex_hint (w_ref w leaf) in
  let pindex := w_pindex w (WT_INTL_INDEX_GET w (ref_home (w_ref w leaf))) in
  let compare := cbt_compare (snd (__check_leaf_key_range w recno leaf cbt)) in
  0 <= h < pindex_entries pindex ->
  pindex_entries pindex <= UINT32_MAX ->
  index_at pindex h = leaf ->
  (compare = 0 <-> covers w pindex recno h)
  /\ (compare = 1 <-> recno < key_recno w leaf)
  /\ (compare = -1 <->
      key_recno w leaf <= recno /\ h + 1 < pindex_entries pindex
      /\ key_recno w (index_at pindex (h + 1)) <= recno).
Proof.
  intros h pindex compare Hh Hn Hleaf. subst compare.
  unfold __check_leaf_key_range, covers. fold h. fold pindex.
  rewrite (wrap32_small (h + 1)) by lia. rewrite Hleaf.
  destruct (Z.ltb_spec recno (key_recno w leaf)) as [Hlt | Hge].
  - cbn. repeat split; intros; try lia.
  - rewrite Z.eqb_refl.
    destruct (Z.ltb_spec (h + 1) (pindex_entries pindex)) as [Hslot | Hslot];
      destruct (Z.geb_spec recno (key_recno w (index_at pindex (h + 1))))
        as [Hnext | Hnext];
      cbn; repeat split; intros; try lia.
Qed.

Lemma check_leaf_key_range_exact_witness :
  covers tree tree_index 125 1
  /\ cbt_compare (snd (__check_leaf_key_range tree 125 12 fresh_cursor)) = 0.
Proof.
  assert (Hcov : covers tree tree_index 125 1).
  { unfold covers. split; [by_eval|]. split; [by_eval|]. right. by_eval. }
  split; [exact Hcov|].
  apply (check_leaf_key_range_exact tree 125 12 fresh_cursor); try by_eval.
  exact Hcov.
Defined.

(** X4.  The child the selection would pick passes the check whatever its
    hint: if a slot of the (sorted) index of the leaf's home covers [recno]
    and holds the leaf, [compare] is 0 and the leaf is searched. *)
Theorem covering_child_passes_range_check (w : world) (recno : Z)
    (leaf : ptr) (cbt : WT_CURSOR_BTREE) (i : Z) :
  let pindex := w_pindex w (WT_INTL_INDEX_GET w (ref_home (w_ref w leaf))) in
  pindex_entries pindex <= UINT32_MAX ->
  keys_increasing w pindex ->
  covers w pindex recno i ->
  index_at pindex i = leaf ->
  0 <= ref_pindex_hint (w_ref w leaf) < UINT32_MAX ->
  __check_leaf_key_range w recno leaf cbt = (0, set_compare cbt 0).
Proof.
  intros pindex Hn Hinc (Hi & Hkey & Hnext) Hleaf Hh.
  unfold __check_leaf_key_range. fold pindex.
  set (h := ref_pindex_hint (w_ref w leaf)) in *.
  rewrite (wrap32_small (h + 1)) by lia.
  rewrite Hleaf in Hkey.
  destruct (Z.ltb_spec recno (key_recno w leaf)) as [Hlt | _]; [lia|].
  destruct (Z.ltb_spec (h + 1) (pindex_entries pindex)) as [Hslot | Hslot];
    [|reflexivity].
  destruct (Z.eqb_spec (index_at pindex h) leaf) as [Hsame | Hsame];
    [|reflexivity].
  destruct (Z.geb_spec recno (key_recno w (index_at pindex (h + 1))))
    as [Hge | Hlt]; [|reflexivity].
  exfalso.
  assert (Hhi : h = i).
  { destruct (Z.lt_trichotomy h i) as [Hlt | [Heq | Hgt]]; [|exact Heq|].
    - assert (key_recno w (index_at pindex h) < key_recno w (index_at pindex i))
        by (apply Hinc; lia).
      rewrite Hsame, Hleaf in *. lia.
    - assert (key_recno w (index_at pindex i) < key_recno w (index_at pindex h))
        by (apply Hinc; lia).
      rewrite Hsame, Hleaf in *. lia. }
  subst i. destruct Hnext as [Hlast | Hnext]; lia.
Qed.

(** Slot 1 of the index of the small tree covers record 125 and holds
    reference 12. *)
Lemma covering_child_passes_range_check_witness :
  __check_leaf_key_range tree 125 12 fresh_cursor
  = (0, set_compare fresh_cursor 0).
Proof.
  apply (covering_child_passes_range_check tree 125 12 fresh_cursor 1);
    try by_eval.
  - exact tree_keys_increasing.
  - unfold covers. split; [by_eval|]. split; [by_eval|]. right. by_eval.
Defined.

(** ** Returns of the search *)

Lemma page_type_eqb_eq (a b : page_type) :
  page_type_eqb a b = true <-> a = b.
Proof.
  destruct a, b; cbn; split; intros H; try reflexivity; discriminate.
Qed.

Section Returns.

Context {env : Collaborators}.

(** X5.  With a supplied leaf the search always returns 0, for any fuel
    and with the same cursor, and hands back the caller's world: it makes
    no page cache call and does not touch the btree handle. *)
Theorem pinned_leaf_search_returns (w : world) (recno : Z) (leaf : ptr)
    (cbt : WT_CURSOR_BTREE) :
  leaf <> NULL ->
  exists cbt', forall fuel,
    __wt_col_search fuel w recno leaf cbt = Done (0, cbt', w).
Proof.
  intros Hleaf.
  assert (Hvia : forall c1,
    (forall fuel, col_search_locate fuel w recno leaf cbt
                  = Done (LeafOnly leaf c1 w)) ->
    exists cbt', forall fuel,
      __wt_col_search fuel w recno leaf cbt = Done (0, cbt', w)).
  { intros c1 Hloc.
    exists (snd (col_search_leaf w recno leaf (__cursor_pos_clear cbt))).
    intros fuel. rewrite (search_via_leaf _ _ _ _ _ _ _ _ (Hloc fuel)).
    destruct (col_search_leaf_ref w recno leaf (__cursor_pos_clear cbt))
      as [-> _].
    reflexivity. }
  destruct (Z.eqb_spec (ref_home (w_ref w leaf)) NULL) as [Hhome | Hhome].
  - apply (Hvia (__cursor_pos_clear cbt)). intros fuel.
    unfold col_search_locate.
    destruct (Z.eqb_spec leaf NULL) as [|_]; [contradiction|].
    rewrite Hhome. reflexivity.
  - destruct (check_leaf_key_range_shape w recno leaf (__cursor_pos_clear cbt))
      as (v & Hv & _).
    destruct (Z.eqb_spec v 0) as [Hv0 | Hv0].
    + apply (Hvia (set_compare (__cursor_pos_clear cbt) v)). intros fuel.
      unfold col_search_locate.
      destruct (Z.eqb_spec leaf NULL) as [|_]; [contradiction|].
      destruct (Z.eqb_spec (ref_home (w_ref w leaf)) NULL) as [|_];
        [contradiction|].
      rewrite Hv. cbn. subst v. reflexivity.
    + exists (set_slot (set_compare (__cursor_pos_clear cbt) v) 0).
      intros fuel. unfold __wt_col_search, col_search_locate.
      destruct (Z.eqb_spec leaf NULL) as [|_]; [contradiction|].
      destruct (Z.eqb_spec (ref_home (w_ref w leaf)) NULL) as [|_];
        [contradiction|].
      rewrite Hv. cbn.
      destruct (Z.eqb_spec v 0) as [|_]; [contradiction|]. reflexivity.
Qed.

(** X6.  A return other than 0 comes from a search from the root only, and
    leaves the cursor as the cursor clear left it: no field of the position
    is written. *)
Theorem error_return_only_clears (fuel : nat) (w : world) (recno : Z)
    (leaf : ptr) (cbt cbt' : WT_CURSOR_BTREE) (ret : Z) (w' : world) :
  __wt_col_search fuel w recno leaf cbt = Done (ret, cbt', w') ->
  ret <> 0 ->
  leaf = NULL /\ cbt' = __cursor_pos_clear cbt.
Proof.
  intros H Hret. unfold __wt_col_search in H.
  destruct (col_search_locate fuel w recno leaf cbt)
    as [[r c wr | current c1 w1]| |] eqn:Hloc; cbn [bind] in H;
    try discriminate.
  - inversion H; subst r c wr. clear H.
    unfold col_search_locate in Hloc.
    destruct (Z.eqb_spec leaf NULL) as [Hnull | Hleaf]; cbn [negb] in Hloc.
    + destruct (col_search_walk fuel w recno (bt_root w) NULL 2)
        as [[cur d wl | r wl]| |]; cbn [bind] in Hloc; try discriminate.
      inversion Hloc; subst. split; reflexivity.
    + exfalso.
      destruct (ref_home (w_ref w leaf) =? NULL); cbn [negb] in Hloc;
        [discriminate|].
      destruct (check_leaf_key_range_shape w recno leaf
                  (__cursor_pos_clear cbt)) as (v & Hv & _).
      rewrite Hv in Hloc. cbn in Hloc.
      destruct (v =? 0); cbn in Hloc; inversion Hloc; subst; contradiction.
  - exfalso.
    destruct (col_search_leaf_ref w1 recno current c1) as [H0 _].
    destruct (col_search_leaf w1 recno current c1) as [r c2].
    cbn [fst] in H0. inversion H; subst. contradiction.
Qed.

(** The walk hands [WT_RESTART] back only if [__wt_page_release] does. *)
Lemma walk_keeps_restart (fuel : nat) :
  WT_RESTART <> 0 ->
  (forall w r, fst (__wt_page_release w r) <> WT_RESTART) ->
  forall w recno current parent_pindex depth ret w',
    col_search_walk fuel w recno current parent_pindex depth
    = Done (WalkError ret w') ->
    ret <> WT_RESTART.
Proof.
  intros Hnz Hrel.
  induction fuel as [|fuel IH]; intros w recno current pp depth ret w' H;
    [discriminate|].
  cbn [col_search_walk] in H.
  destruct (page_type_eqb _ _); cbn [negb] in H; [|discriminate].
  destruct (WT_ASSERT _); cbn [bind] in H; try discriminate.
  destruct (intl_pick _ _ _) as [[[edge base] d0]| |]; cbn [bind] in H;
    try discriminate.
  destruct (edge && negb (pp =? NULL) && __wt_split_intl_race _ _ _).
  - pose proof (Hrel w current) as Hr.
    destruct (__wt_page_release w current) as [r w2]. cbn [fst] in Hr.
    destruct (Z.eqb_spec r 0) as [Hr0 | Hr0]; cbn [negb] in H.
    + exact (IH _ _ _ _ _ _ _ H).
    + inversion H; subst. exact Hr.
  - destruct (intl_descend_slot _ _ _ _ _) as [descent| |]; cbn [bind] in H;
      try discriminate.
    destruct (__wt_page_swap w current descent) as [r w2].
    destruct (Z.eqb_spec r 0) as [Hr0 | Hr0]; [exact (IH _ _ _ _ _ _ _ H)|].
    destruct (Z.eqb_spec r WT_RESTART) as [Hrs | Hrs];
      [exact (IH _ _ _ _ _ _ _ H)|].
    inversion H; subst. exact Hrs.
Qed.

(** X7.  [WT_RESTART] from [__wt_page_swap] never reaches the caller: when
    [WT_RESTART] is not 0 and [__wt_page_release] does not return it, no
    search returns it. *)
Theorem restart_never_escapes (fuel : nat) (w : world) (recno : Z)
    (leaf : ptr) (cbt cbt' : WT_CURSOR_BTREE) (ret : Z) (w' : world) :
  WT_RESTART <> 0 ->
  (forall w r, fst (__wt_page_release w r) <> WT_RESTART) ->
  __wt_col_search fuel w recno leaf cbt = Done (ret, cbt', w') ->
  ret <> WT_RESTART.
Proof.
  intros Hnz Hrel H.
  destruct (Z.eq_dec ret 0) as [-> | Hret]; [congruence|].
  destruct (error_return_only_clears _ _ _ _ _ _ _ _ H Hret) as [-> _].
  unfold __wt_col_search, col_search_locate in H.
  change (NULL =? NULL) with true in H. cbn [negb] in H.
  destruct (col_search_walk fuel w recno (bt_root w) NULL 2)
    as [[cur d wl | r wl]| |] eqn:Hwalk; cbn [bind] in H; try discriminate.
  - destruct (col_search_leaf_ref
                (if d >? bt_maximum_depth wl then set_maximum_depth wl d
                 else wl) recno cur (__cursor_pos_clear cbt)) as [H0 _].
    destruct (col_search_leaf _ recno cur (__cursor_pos_clear cbt))
      as [r c2].
    cbn [fst] in H0. inversion H; subst. contradiction.
  - inversion H; subst.
    exact (walk_keeps_restart fuel Hnz Hrel _ _ _ _ _ _ _ Hwalk).
Qed.

End Returns.

(** ** The walk on a tree without a pending split *)

Section SettledTree.

Context {env : Collaborators}.

Variables (w : world) (recno : Z).

(** The page cache has every page of [w] at hand: a swap succeeds and
    changes nothing. *)
Hypothesis swap_quiet : forall a b, __wt_page_swap w a b = (0, w).

(** From any page of a settled tree whose key is at most [recno], with one
    unit of fuel per level and one for the leaf, the walk steps into the
    covering child at every level and ends on a leaf, one deeper per
    level. *)
Lemma walk_settled (h : nat) (r : ptr) :
  settled w h r ->
  forall fuel parent_pindex depth,
    key_recno w r <= recno ->
    parent_pindex = NULL
    \/ __wt_split_intl_race w (ref_home (w_ref w r)) parent_pindex = false ->
    (h < fuel)%nat ->
    exists c,
      col_search_walk fuel w recno r parent_pindex depth
      = Done (WalkLeaf c (depth + Z.of_nat h) w)
      /\ descends w recno r c
      /\ key_recno w c <= recno.
Proof.
  induction 1 as [r Hleaf | h r Hint Hkey Hn Hinc Hfirst Hsub IH Hrace];
    intros fuel pp depth Hrecno Hpp Hfuel.
  - destruct fuel as [|fuel]; [lia|]. exists r. cbn [col_search_walk].
    destruct (page_type_eqb _ _) eqn:E;
      [apply page_type_eqb_eq in E; contradiction|].
    cbn [negb]. rewrite Z.add_0_r.
    split; [reflexivity|]. split; [apply descends_leaf; exact Hleaf | exact Hrecno].
  - destruct fuel as [|fuel]; [lia|]. cbn [col_search_walk].
    rewrite Hint. cbn [page_type_eqb negb].
    rewrite Hkey, Z.eqb_refl. cbn [WT_ASSERT bind].
    destruct (intl_step_covers w _ recno Hn Hinc ltac:(lia))
      as (edge & base & d0 & i & Hpick & Hslot & Hcov).
    rewrite Hpick. cbn [bind].
    assert (Hno : edge && negb (pp =? NULL)
                  && __wt_split_intl_race w (ref_home (w_ref w r)) pp = false).
    { destruct Hpp as [-> | ->].
      - change (NULL =? NULL) with true. cbn [negb].
        rewrite andb_false_r. reflexivity.
      - apply andb_false_r. }
    rewrite Hno, Hslot. cbn [bind]. rewrite swap_quiet.
    change (0 =? 0) with true. cbv iota.
    destruct Hcov as (Hi & Hki & Hnext).
    destruct (IH i Hi fuel
                (WT_INTL_INDEX_GET w (ref_page (w_ref w r))) (depth + 1)
                Hki (or_intror (Hrace i Hi)) ltac:(lia))
      as (c & Hrun & Hdesc & Hkc).
    exists c. rewrite Hrun.
    replace (depth + 1 + Z.of_nat h) with (depth + Z.of_nat (S h)) by lia.
    split; [reflexivity|]. split; [|exact Hkc].
    apply (descends_step w recno r i c Hint); [|exact Hdesc].
    exact (conj Hi (conj Hki Hnext)).
Qed.

(** X8.  On a settled tree of height [h] whose root key is at most
    [recno], a search from the root with more than [h] units of fuel
    returns 0 with [cbt->ref] the leaf that the covering children lead to,
    whose key is at most [recno]; the world comes back with
    [maximum_depth] raised to [h + 2] if it was lower, and is otherwise
    unchanged. *)
Theorem search_reaches_covering_leaf (fuel : nat) (h : nat)
    (cbt : WT_CURSOR_BTREE) :
  settled w h (bt_root w) ->
  key_recno w (bt_root w) <= recno ->
  (h < fuel)%nat ->
  exists c cbt',
    __wt_col_search fuel w recno NULL cbt
    = Done (0, cbt',
            if 2 + Z.of_nat h >? bt_maximum_depth w
            then set_maximum_depth w (2 + Z.of_nat h) else w)
    /\ cbt_ref cbt' = c
    /\ descends w recno (bt_root w) c
    /\ key_recno w c <= recno.
Proof.
  intros Hs Hroot Hfuel.
  destruct (walk_settled h (bt_root w) Hs fuel NULL 2 Hroot
              (or_introl eq_refl) Hfuel) as (c & Hrun & Hdesc & Hkc).
  set (w1 := if 2 + Z.of_nat h >? bt_maximum_depth w
             then set_maximum_depth w (2 + Z.of_nat h) else w).
  assert (Hloc : col_search_locate fuel w recno NULL cbt
                 = Done (LeafOnly c (__cursor_pos_clear cbt) w1)).
  { unfold col_search_locate. change (NULL =? NULL) with true.
    cbn [negb]. rewrite Hrun. reflexivity. }
  exists c, (snd (col_search_leaf w1 recno c (__cursor_pos_clear cbt))).
  rewrite (search_via_leaf _ _ _ _ _ _ _ _ Hloc).
  destruct (col_search_leaf_ref w1 recno c (__cursor_pos_clear cbt))
    as [-> Href].
  split; [reflexivity|]. split; [exact Href|]. split; assumption.
Qed.

End SettledTree.

(** ** A search from the root and the leaf it finds *)

Section Reposition.

Context {env : Collaborators}.

(** X9.  A search with the leaf supplied that the search from the root
    found gives the same return, cursor and world as that search, whatever
    its fuel, provided the leaf has no [home] or the range check keeps it
    ([compare = 0]). *)
Theorem pinned_search_agrees_with_descent (fuel fuel' : nat) (w : world)
    (recno : Z) (cbt : WT_CURSOR_BTREE) (c : ptr) (cbt1 : WT_CURSOR_BTREE)
    (w1 : world) :
  col_search_locate fuel w recno NULL cbt = Done (LeafOnly c cbt1 w1) ->
  c <> NULL ->
  ref_home (w_ref w1 c) = NULL
  \/ cbt_compare (snd (__check_leaf_key_range w1 recno c
                         (__cursor_pos_clear cbt))) = 0 ->
  __wt_col_search fuel' w1 recno c cbt
  = __wt_col_search fuel w recno NULL cbt.
Proof.
  intros Hloc Hc Hkeep.
  rewrite (search_via_leaf _ _ _ _ _ _ _ _ Hloc).
  assert (Hpin : exists c2,
    col_search_locate fuel' w1 recno c cbt = Done (LeafOnly c c2 w1)).
  { unfold col_search_locate.
    destruct (Z.eqb_spec c NULL) as [|_]; [contradiction|]. cbn [negb].
    destruct (Z.eqb_spec (ref_home (w_ref w1 c)) NULL) as [Hhome | Hhome];
      cbn [negb]; [eexists; reflexivity|].
    destruct Hkeep as [Hkeep | Hkeep]; [contradiction|].
    destruct (__check_leaf_key_range w1 recno c (__cursor_pos_clear cbt))
      as [r c2] eqn:Hchk.
    destruct (check_leaf_key_range_shape w1 recno c (__cursor_pos_clear cbt))
      as (v & Hv & _).
    rewrite Hchk in Hv. inversion Hv; subst r c2. cbn [snd] in Hkeep.
    rewrite Hkeep. cbn. eexists; reflexivity. }
  destruct Hpin as (c2 & Hpin).
  exact (search_via_leaf _ _ _ _ _ _ _ _ Hpin).
Qed.

End Reposition.

(** ** The position a leaf search leaves *)

Section LeafPosition.

Context {env : Collaborators}.

(** Past the end: [compare] is -1, 0 or +1, it is 0 exactly for an entry
    with record number [recno], and the flags gain [WT_CBT_MAX_RECORD]
    exactly when it is -1. *)
Lemma past_end_compare_flags (w : world) (page : ptr) (recno : Z)
    (c : WT_CURSOR_BTREE) :
  let c' := snd (col_search_past_end w page recno c) in
  (cbt_compare c' = -1 \/ cbt_compare c' = 0 \/ cbt_compare c' = 1)
  /\ cbt_flags c'
     = (if cbt_compare c' =? -1
        then Z.lor (cbt_flags c) WT_CBT_MAX_RECORD else cbt_flags c)
  /\ (cbt_compare c' = 0 <->
      cbt_ins c' <> NULL /\ WT_INSERT_RECNO w (cbt_ins c') = recno).
Proof.
  unfold col_search_past_end.
  destruct (Z.eqb_spec recno UINT64_MAX) as [Hmax | Hmax].
  - cbn. repeat split; intros; try lia; try tauto.
  - cbn [cbt_ins_head cbt_ins_stack cbt_next_stack set_ins_head].
    destruct (__col_insert_search w (WT_COL_APPEND w page) (cbt_ins_stack c)
                (cbt_next_stack c) recno) as [[ins st] nst].
    cbn [fst snd set_ins set_stacks cbt_ins].
    destruct (Z.eqb_spec ins NULL) as [Hnull | Hins].
    + cbn. repeat split; intros; try lia; try tauto.
    + cbn [set_recno cbt_recno].
      destruct (Z.eqb_spec recno (WT_INSERT_RECNO w ins)) as [Heq | Hne];
        [|destruct (Z.ltb_spec recno (WT_INSERT_RECNO w ins)) as [Hlt | Hge]];
        cbn; repeat split; intros; try lia; try tauto; try congruence.
Qed.

Variables (fuel : nat) (w : world) (recno : Z) (leaf : ptr)
          (cbt : WT_CURSOR_BTREE).
Variables (current : ptr) (cbt1 : WT_CURSOR_BTREE) (w1 : world).

Hypothesis at_leaf :
  col_search_locate fuel w recno leaf cbt = Done (LeafOnly current cbt1 w1).

Let page : ptr := ref_page (w_ref w1 current).
Let cleared : WT_CURSOR_BTREE := __cursor_pos_clear cbt.

(** X10.  A search through [leaf_only] returns 0 with [compare] -1, 0 or
    +1.  It ends with -1 only past the end of the page, and then the flags
    are the cleared cursor's with [WT_CBT_MAX_RECORD] or-ed in; with 0 or
    +1 the flags are the cleared cursor's. *)
Theorem leaf_search_compare_and_flags :
  exists cbt',
    __wt_col_search fuel w recno leaf cbt = Done (0, cbt', w1)
    /\ (cbt_compare cbt' = -1 \/ cbt_compare cbt' = 0 \/ cbt_compare cbt' = 1)
    /\ (cbt_compare cbt' = -1 ->
        leaf_past_end w1 page recno = true
        /\ cbt_flags cbt' = Z.lor (cbt_flags cleared) WT_CBT_MAX_RECORD)
    /\ (cbt_compare cbt' <> -1 -> cbt_flags cbt' = cbt_flags cleared).
Proof.
  subst page cleared.
  destruct (leaf_paths w1 (ref_page (w_ref w1 current)) recno)
    as [H | [H | H]].
  - eexists. split; [exact (search_before _ _ _ _ _ _ _ _ at_leaf H)|].
    cbn. repeat split; intros; try lia; try reflexivity.
  - eexists. split; [exact (search_past_end _ _ _ _ _ _ _ _ at_leaf H)|].
    destruct (past_end_compare_flags w1 (ref_page (w_ref w1 current)) recno
                (set_recno (leaf_cursor (__cursor_pos_clear cbt) current recno)
                           (page_end_recno w1 (ref_page (w_ref w1 current)))))
      as (Hcmp & Hflags & _).
    split; [exact Hcmp|]. rewrite Hflags. split.
    + intros ->. split; [exact H | reflexivity].
    + intros Hne. destruct (Z.eqb_spec (cbt_compare
        (snd (col_search_past_end w1 (ref_page (w_ref w1 current)) recno
                (set_recno (leaf_cursor (__cursor_pos_clear cbt) current recno)
                           (page_end_recno w1 (ref_page (w_ref w1 current))))))) (-1));
        [contradiction | reflexivity].
  - eexists. split; [exact (search_on_page _ _ _ _ _ _ _ _ at_leaf H)|].
    destruct (on_page_result w1 recno (on_page_head w1 (ref_page (w_ref w1 current)) recno)
                (set_slot (leaf_cursor (__cursor_pos_clear cbt) current recno)
                          (on_page_slot w1 (ref_page (w_ref w1 current)) recno)))
      as (_ & _ & _ & _ & Hcmp & Hflags & _).
    rewrite Hcmp, Hflags. cbn.
    repeat split; intros; try lia; try reflexivity.
Qed.

(** X11.  A search through [leaf_only] leaves [slot] at [UINT32_MAX]
    unless the record is on a variable-length page: a slot other than the
    sentinel is the slot of the entry [__col_var_search] found, and comes
    with [compare = 0]. *)
Theorem leaf_search_slot :
  exists cbt',
    __wt_col_search fuel w recno leaf cbt = Done (0, cbt', w1)
    /\ (cbt_slot cbt' <> UINT32_MAX ->
        pg_type (w_page w1 page) <> WT_PAGE_COL_FIX
        /\ leaf_on_page w1 page recno = true
        /\ cbt_compare cbt' = 0
        /\ cbt_slot cbt'
           = WT_COL_SLOT w1 page (__col_var_search w1 page recno))
    /\ (leaf_on_page w1 page recno = false -> cbt_slot cbt' = UINT32_MAX).
Proof.
  subst page cleared.
  destruct (leaf_paths w1 (ref_page (w_ref w1 current)) recno)
    as [H | [H | H]].
  - eexists. split; [exact (search_before _ _ _ _ _ _ _ _ at_leaf H)|].
    cbn. split; [intros Hs; contradiction | reflexivity].
  - eexists. split; [exact (search_past_end _ _ _ _ _ _ _ _ at_leaf H)|].
    destruct (past_end_result w1 (ref_page (w_ref w1 current)) recno
                (set_recno (leaf_cursor (__cursor_pos_clear cbt) current recno)
                           (page_end_recno w1 (ref_page (w_ref w1 current)))))
      as (_ & _ & Hslot & _).
    rewrite Hslot. cbn. split; [intros Hs; contradiction | reflexivity].
  - eexists. split; [exact (search_on_page _ _ _ _ _ _ _ _ at_leaf H)|].
    destruct (on_page_result w1 recno (on_page_head w1 (ref_page (w_ref w1 current)) recno)
                (set_slot (leaf_cursor (__cursor_pos_clear cbt) current recno)
                          (on_page_slot w1 (ref_page (w_ref w1 current)) recno)))
      as (_ & _ & _ & Hslot & Hcmp & _).
    rewrite Hslot, Hcmp. cbn. rewrite H. split; [|discriminate].
    unfold on_page_slot.
    destruct (page_type_eqb (pg_type (w_page w1 (ref_page (w_ref w1 current)))) WT_PAGE_COL_FIX) eqn:E.
    + intros Hs. contradiction.
    + intros _. split.
      * intros Hfix. apply page_type_eqb_eq in Hfix. congruence.
      * repeat split.
Qed.

(** X12.  A search through [leaf_only] ends with [compare = 0] exactly
    when the record is on the page, or is past its end and the append list
    gave an entry with that record number; and then the cursor's record
    number is [recno]. *)
Theorem leaf_search_exact_match :
  exists cbt',
    __wt_col_search fuel w recno leaf cbt = Done (0, cbt', w1)
    /\ (cbt_compare cbt' = 0 <->
        leaf_on_page w1 page recno = true
        \/ (leaf_past_end w1 page recno = true
            /\ cbt_ins cbt' <> NULL
            /\ WT_INSERT_RECNO w1 (cbt_ins cbt') = recno))
    /\ (cbt_compare cbt' = 0 -> cbt_recno cbt' = recno).
Proof.
  subst page cleared.
  assert (Hexcl : leaf_on_page w1 (ref_page (w_ref w1 current)) recno = true ->
                  leaf_past_end w1 (ref_page (w_ref w1 current)) recno = true -> False).
  { unfold leaf_on_page. intros Hon Hpast. rewrite Hpast in Hon.
    rewrite andb_false_r in Hon. discriminate. }
  assert (Hexcl' : leaf_before w1 (ref_page (w_ref w1 current)) recno = true ->
                   leaf_on_page w1 (ref_page (w_ref w1 current)) recno = false
                   /\ leaf_past_end w1 (ref_page (w_ref w1 current)) recno = false).
  { unfold leaf_on_page, leaf_past_end, leaf_before.
    destruct (page_type_eqb _ _); intros ->; split; reflexivity. }
  destruct (leaf_paths w1 (ref_page (w_ref w1 current)) recno) as [H | [H | H]].
  - eexists. split; [exact (search_before _ _ _ _ _ _ _ _ at_leaf H)|].
    destruct (Hexcl' H) as [Hon Hpast]. cbn. split; [split|]; intros H1.
    + discriminate.
    + rewrite Hon, Hpast in H1.
      destruct H1 as [H1 | [H1 _]]; discriminate.
    + discriminate.
  - eexists. split; [exact (search_past_end _ _ _ _ _ _ _ _ at_leaf H)|].
    destruct (past_end_compare_flags w1 (ref_page (w_ref w1 current)) recno
                (set_recno (leaf_cursor (__cursor_pos_clear cbt) current recno)
                           (page_end_recno w1 (ref_page (w_ref w1 current)))))
      as (_ & _ & Hzero).
    destruct (past_end_result w1 (ref_page (w_ref w1 current)) recno
                (set_recno (leaf_cursor (__cursor_pos_clear cbt) current recno)
                           (page_end_recno w1 (ref_page (w_ref w1 current)))))
      as (_ & _ & _ & _ & _ & _ & Hhit & _).
    split; [split|].
    + intros H0. right. split; [exact H|]. apply Hzero. exact H0.
    + intros [Hon | (_ & Hins & Hrec)];
        [exfalso; exact (Hexcl Hon H) | apply Hzero; split; assumption].
    + intros H0. destruct (proj1 Hzero H0) as [Hins Hrec].
      destruct (Hhit Hins) as [-> _]. exact Hrec.
  - eexists. split; [exact (search_on_page _ _ _ _ _ _ _ _ at_leaf H)|].
    destruct (on_page_result w1 recno (on_page_head w1 (ref_page (w_ref w1 current)) recno)
                (set_slot (leaf_cursor (__cursor_pos_clear cbt) current recno)
                          (on_page_slot w1 (ref_page (w_ref w1 current)) recno)))
      as (_ & _ & Hrec & _ & Hcmp & _).
    rewrite Hcmp, Hrec. cbn. split; [split|]; intros; try reflexivity.
    left. exact H.
Qed.

(** X13.  A fixed-length page whose records end within 64 bits is dense to
    the search: a record below [pg_fix_recno] ends with [compare = +1];
    every record from [pg_fix_recno] up to, not including, [pg_fix_recno +
    pg_fix_entries] ends with [compare = 0] on that record; and from there
    on the cursor carries the append list, with [compare = -1] on the
    page's end when the list gives no entry. *)
Theorem fixed_page_regions :
  pg_type (w_page w1 page) = WT_PAGE_COL_FIX ->
  0 <= pg_fix_recno (w_page w1 page) ->
  0 <= pg_fix_entries (w_page w1 page) ->
  pg_fix_recno (w_page w1 page) + pg_fix_entries (w_page w1 page)
  <= UINT64_MAX ->
  exists cbt',
    __wt_col_search fuel w recno leaf cbt = Done (0, cbt', w1)
    /\ (recno < pg_fix_recno (w_page w1 page) ->
        cbt_compare cbt' = 1 /\ cbt_recno cbt' = recno)
    /\ (pg_fix_recno (w_page w1 page) <= recno
        < pg_fix_recno (w_page w1 page) + pg_fix_entries (w_page w1 page) ->
        cbt_compare cbt' = 0 /\ cbt_recno cbt' = recno
        /\ cbt_slot cbt' = UINT32_MAX)
    /\ (pg_fix_recno (w_page w1 page) + pg_fix_entries (w_page w1 page)
        <= recno ->
        cbt_ins_head cbt' = WT_COL_APPEND w1 page
        /\ (cbt_ins cbt' = NULL ->
            cbt_compare cbt' = -1
            /\ cbt_recno cbt'
               = pg_fix_recno (w_page w1 page)
                 + pg_fix_entries (w_page w1 page))).
Proof.
  subst page cleared. intros Hfix Hstart Hcount Hend.
  set (start := pg_fix_recno (w_page w1 (ref_page (w_ref w1 current)))) in *.
  set (count := pg_fix_entries (w_page w1 (ref_page (w_ref w1 current)))) in *.
  assert (Hwrap : wrap64 (start + count) = start + count).
  { unfold wrap64. apply Z.mod_small. unfold UINT64_MAX in Hend. lia. }
  assert (Hbefore : leaf_before w1 (ref_page (w_ref w1 current)) recno = (recno <? start)).
  { unfold leaf_before. rewrite Hfix. reflexivity. }
  assert (Hpast : leaf_past_end w1 (ref_page (w_ref w1 current)) recno
                  = negb (recno <? start) && (recno >=? start + count)).
  { unfold leaf_past_end. rewrite Hfix. cbn [page_type_eqb].
    fold start count. rewrite Hwrap. reflexivity. }
  assert (Hendr : page_end_recno w1 (ref_page (w_ref w1 current)) = start + count).
  { unfold page_end_recno. rewrite Hfix. cbn [page_type_eqb].
    fold start count. exact Hwrap. }
  destruct (Z.ltb_spec recno start) as [Hlt | Hge].
  - eexists. split; [exact (search_before _ _ _ _ _ _ _ _ at_leaf Hbefore)|].
    cbn. repeat split; intros; try lia.
  - destruct (Z.geb_spec recno (start + count)) as [Hout | Hin];
      cbn [negb andb] in Hpast.
    + eexists. split; [exact (search_past_end _ _ _ _ _ _ _ _ at_leaf Hpast)|].
      destruct (past_end_result w1 (ref_page (w_ref w1 current)) recno
                  (set_recno (leaf_cursor (__cursor_pos_clear cbt) current recno)
                             (page_end_recno w1 (ref_page (w_ref w1 current)))))
        as (_ & _ & _ & Happ & _ & Hmiss & _).
      split; [intros; lia|]. split; [intros; lia|]. intros _.
      split; [exact Happ|]. intros Hnull.
      destruct (Hmiss Hnull) as [Hc Hr]. split; [exact Hc|].
      rewrite Hr. cbn. exact Hendr.
    + assert (Hon : leaf_on_page w1 (ref_page (w_ref w1 current)) recno = true).
      { unfold leaf_on_page. rewrite Hbefore, Hpast.
        destruct (Z.ltb_spec recno start); [lia | reflexivity]. }
      eexists. split; [exact (search_on_page _ _ _ _ _ _ _ _ at_leaf Hon)|].
      destruct (on_page_result w1 recno (on_page_head w1 (ref_page (w_ref w1 current)) recno)
                  (set_slot (leaf_cursor (__cursor_pos_clear cbt) current recno)
                            (on_page_slot w1 (ref_page (w_ref w1 current)) recno)))
        as (_ & _ & Hrec & Hslot & Hcmp & _).
      rewrite Hcmp, Hrec, Hslot. cbn.
      split; [intros; lia|]. split; [|intros; lia]. intros _.
      repeat split. unfold on_page_slot. rewrite Hfix. reflexivity.
Qed.

End LeafPosition.

(** ** The further properties on the small tree *)

Lemma tree_settled (upd app : list ptr) :
  @settled (tree_env upd app) tree 1 (bt_root tree).
Proof.
  apply settled_intl.
  - reflexivity.
  - reflexivity.
  - by_eval.
  - exact tree_keys_increasing.
  - reflexivity.
  - intros i Hi. cbn in Hi.
    assert (Hc : i = 0 \/ i = 1 \/ i = 2) by lia.
    destruct Hc as [-> | [-> | ->]]; apply settled_leaf; discriminate.
  - intros i Hi. cbn in Hi.
    assert (Hc : i = 0 \/ i = 1 \/ i = 2) by lia.
    destruct Hc as [-> | [-> | ->]]; reflexivity.
Qed.

Lemma pinned_leaf_search_returns_witness :
  exists cbt', forall fuel,
    @__wt_col_search (tree_env [] []) fuel tree 125 12 fresh_cursor
    = Done (0, cbt', tree).
Proof.
  apply (@pinned_leaf_search_returns (tree_env [] []) tree 125 12
           fresh_cursor).
  by_eval.
Defined.

(** From the root of the small tree the search for 125 selects reference
    12; the busy page cache refuses the swap and the search returns 16 with
    the cleared cursor. *)
Lemma error_return_only_clears_witness :
  @__wt_col_search busy_env 1 tree 125 NULL fresh_cursor
  = Done (16, @__cursor_pos_clear busy_env fresh_cursor, tree)
  /\ NULL = NULL
  /\ @__cursor_pos_clear busy_env fresh_cursor
     = @__cursor_pos_clear busy_env fresh_cursor.
Proof.
  split; [reflexivity|].
  apply (@error_return_only_clears busy_env 1 tree 125 NULL fresh_cursor
           (@__cursor_pos_clear busy_env fresh_cursor) 16 tree).
  - reflexivity.
  - by_eval.
Defined.

Lemma restart_never_escapes_witness :
  16 <> @WT_RESTART busy_env.
Proof.
  apply (@restart_never_escapes busy_env 1 tree 125 NULL fresh_cursor
           (@__cursor_pos_clear busy_env fresh_cursor) 16 tree).
  - by_eval.
  - intros w r. by_eval.
  - reflexivity.
Defined.

(** The search for 125 from the root of the small tree, of height 1: the
    covering children lead to reference 12, and the depth recorded is 3. *)
Lemma search_reaches_covering_leaf_witness :
  exists c cbt',
    @__wt_col_search (tree_env [] []) 2 tree 125 NULL fresh_cursor
    = Done (0, cbt',
            if 2 + Z.of_nat 1 >? bt_maximum_depth tree
            then set_maximum_depth tree (2 + Z.of_nat 1) else tree)
    /\ cbt_ref cbt' = c
    /\ descends tree 125 (bt_root tree) c
    /\ key_recno tree c <= 125.
Proof.
  apply (@search_reaches_covering_leaf (tree_env [] []) tree 125).
  - intros a b. reflexivity.
  - apply tree_settled.
  - by_eval.
  - lia.
Defined.

(** The search for 125 from the root finds reference 12; with 12 supplied,
    in the world that search left, the result is the same. *)
Lemma pinned_search_agrees_with_descent_witness :
  @__wt_col_search (tree_env [] []) 0 (set_maximum_depth tree 3) 125 12
    fresh_cursor
  = @__wt_col_search (tree_env [] []) 2 tree 125 NULL fresh_cursor.
Proof.
  apply (@pinned_search_agrees_with_descent (tree_env [] []) 2 0 tree 125
           fresh_cursor 12 (@__cursor_pos_clear (tree_env [] []) fresh_cursor)
           (set_maximum_depth tree 3)).
  - reflexivity.
  - by_eval.
  - right. reflexivity.
Defined.

(** Record 200 past page 102 with an empty append list: [compare] is -1 and
    the flags are [WT_CBT_MAX_RECORD]. *)
Lemma leaf_search_compare_and_flags_witness :
  exists cbt',
    @__wt_col_search (tree_env [] []) 0 tree 200 14 fresh_cursor
    = Done (0, cbt', tree)
    /\ (cbt_compare cbt' = -1 \/ cbt_compare cbt' = 0 \/ cbt_compare cbt' = 1)
    /\ (cbt_compare cbt' = -1 ->
        @leaf_past_end (tree_env [] []) tree (ref_page (w_ref tree 14)) 200
        = true
        /\ cbt_flags cbt'
           = Z.lor (cbt_flags (@__cursor_pos_clear (tree_env [] [])
                                 fresh_cursor))
                   (@WT_CBT_MAX_RECORD (tree_env [] [])))
    /\ (cbt_compare cbt' <> -1 ->
        cbt_flags cbt'
        = cbt_flags (@__cursor_pos_clear (tree_env [] []) fresh_cursor)).
Proof.
  apply (@leaf_search_compare_and_flags (tree_env [] []) 0 tree 200 14
           fresh_cursor 14 (@__cursor_pos_clear (tree_env [] []) fresh_cursor)
           tree).
  reflexivity.
Defined.

(** Record 162 on the variable-length page 103: slot 1 of its three. *)
Lemma leaf_search_slot_witness :
  exists cbt',
    @__wt_col_search (tree_env [] []) 0 tree 162 13 fresh_cursor
    = Done (0, cbt', tree)
    /\ cbt_slot cbt' = 1.
Proof.
  destruct (@leaf_search_slot (tree_env [] []) 0 tree 162 13 fresh_cursor 13
              (set_compare (@__cursor_pos_clear (tree_env [] []) fresh_cursor)
                           0)
              tree eq_refl) as (cbt' & Hrun & Hslot & _).
  exists cbt'. split; [exact Hrun|].
  assert (Hc : Done (0, cbt', tree)
               = Done (0, mkCbt 13 162 1 0 NULL NULL [NULL] [NULL] 0, tree))
    by (rewrite <- Hrun; reflexivity).
  inversion Hc. reflexivity.
Defined.

(** Scenario S3 on the small tree: record 170 past page 102, with record
    170 on the append list. *)
Lemma leaf_search_exact_match_witness :
  exists cbt',
    @__wt_col_search (tree_env [] [401]) 0 tree 170 14 fresh_cursor
    = Done (0, cbt', tree)
    /\ cbt_compare cbt' = 0 /\ cbt_recno cbt' = 170.
Proof.
  destruct (@leaf_search_exact_match (tree_env [] [401]) 0 tree 170 14
              fresh_cursor 14
              (@__cursor_pos_clear (tree_env [] [401]) fresh_cursor)
              tree eq_refl) as (cbt' & Hrun & Hiff & Hrec).
  exists cbt'. split; [exact Hrun|].
  assert (Hc : cbt' = mkCbt 14 170 UINT32_MAX 0 301 401 [401] [NULL] 0).
  { assert (Hd : Done (0, cbt', tree)
                 = Done (0, mkCbt 14 170 UINT32_MAX 0 301 401 [401] [NULL] 0,
                         tree))
      by (rewrite <- Hrun; reflexivity).
    inversion Hd. reflexivity. }
  assert (H0 : cbt_compare cbt' = 0).
  { apply Hiff. right. rewrite Hc. repeat split; by_eval. }
  split; [exact H0 | exact (Hrec H0)].
Defined.

(** Page 102 of the small tree, records 100-149: record 149 is the last on
    the page. *)
Lemma fixed_page_regions_witness :
  exists cbt',
    @__wt_col_search (tree_env [] []) 0 tree 149 14 fresh_cursor
    = Done (0, cbt', tree)
    /\ cbt_compare cbt' = 0 /\ cbt_recno cbt' = 149
    /\ cbt_slot cbt' = UINT32_MAX.
Proof.
  destruct (@fixed_page_regions (tree_env [] []) 0 tree 149 14 fresh_cursor
              14 (@__cursor_pos_clear (tree_env [] []) fresh_cursor) tree
              eq_refl eq_refl)
    as (cbt' & Hrun & _ & Hin & _); try by_eval.
  exists cbt'. split; [exact Hrun|]. apply Hin. by_eval.
Defined.
